(** * Dynamic function-table manager (src/library_addfunction.js)

    A shallow embedding of the JavaScript library functions
    [uleb128Encode], [sigToWasmTypes], [convertJsFunctionToWasm],
    [getEmptyTableSlot], [updateTableMap], [addFunction] and
    [removeFunction], together with the properties of them that the
    specification states. *)

From Stdlib Require Import ZArith Ascii String List Lia.
From stdpp Require Import gmap strings list fin_maps countable.

Local Open Scope string_scope.
Local Open Scope list_scope.
Local Open Scope Z_scope.

(** ** Build settings

    The source is preprocessed: [#if ASSERTIONS], [#if MEMORY64] and
    [#if WASM2JS] select code at build time. *)

Record Settings := {
  ASSERTIONS : nat;
  MEMORY64 : bool;
  WASM2JS : bool
}.

(** ** JavaScript values and exceptions *)

(** An element of a plain JS array of numbers; a failed object lookup
    ([typeCodes[c]] for an unknown [c]) yields [undefined]. *)
Inductive jsval :=
  | JNum (z : Z)
  | JUndefined.

(** What a [throw] carries: the built-in error classes the code tests
    for or meets, a failed assertion with its text ([None] when it has
    none), or a thrown string. *)
Inductive exn :=
  | RangeError
  | TypeError
  | CompileError
  | LinkError
  | AssertionFailed (text : option string)
  | ThrownString (msg : string).

Inductive result (A : Type) :=
  | Ok (a : A)
  | Throw (e : exn).
Arguments Ok {A} a.
Arguments Throw {A} e.

Definition rbind {A B} (r : result A) (k : A -> result B) : result B :=
  match r with
  | Ok a => k a
  | Throw e => Throw e
  end.

(** Modelled from the spec: [assert] (defined outside this file) is the
    debug-build assertion; it fails with its text when the condition
    is false.  Every call in library_addfunction.js stands under
    [#if ASSERTIONS], so a build without assertions does not evaluate
    it. *)
Definition assert (cfg : Settings) (cond : bool) (text : option string) : result unit :=
  if (0 <? ASSERTIONS cfg)%nat then
    if cond then Ok tt else Throw (AssertionFailed text)
  else Ok tt.

(** [for (var i = start; i < start + count; ++i) acc = body(i, acc)] *)
Fixpoint for_loop {A} (start count : nat) (body : nat -> A -> result A) (acc : A) : result A :=
  match count with
  | O => Ok acc
  | S n => rbind (body start acc) (for_loop (S start) n body)
  end.

(** ToInt32, the coercion the JS bit operators apply to their operands. *)
Definition toInt32 (z : Z) : Z := (z + 2 ^ 31) mod 2 ^ 32 - 2 ^ 31.

(** [a | b], [a >> k] and [a % b] of JS on integers. *)
Definition js_or (a b : Z) : Z := Z.lor (toInt32 a) (toInt32 b).
Definition js_sar (a k : Z) : Z := Z.shiftr (toInt32 a) k.
Definition js_rem (a b : Z) : Z := Z.rem a b.

(** [new Uint8Array(bytes)]: every element is taken modulo 256,
    [undefined] becomes 0. *)
Definition toUint8 (v : jsval) : Z :=
  match v with
  | JNum z => z mod 256
  | JUndefined => 0
  end.
Definition Uint8Array (bytes : list jsval) : list Z := map toUint8 bytes.

(** [s[i]] printed inside a message. *)
Definition show_char (o : option ascii) : string :=
  match o with
  | Some c => String c EmptyString
  | None => "undefined"
  end.

(** ** uleb128Encode *)

Definition uleb128Encode (cfg : Settings) (n : Z) (target : list jsval)
  : result (list jsval) :=
  rbind (assert cfg (n <? 16384) None) (fun _ =>
  if n <? 128 then
    Ok (target ++ [JNum n])
  else
    Ok (target ++ [JNum (js_or (js_rem n 128) 128); JNum (js_sar n 7)])).

(** ** sigToWasmTypes *)

Inductive valtype := i32 | i64 | f32 | f64.

(** The object literal [typeNames]; [None] is the [undefined] that a
    lookup of an absent key gives. *)
Definition typeNames (cfg : Settings) (c : ascii) : option valtype :=
  match c with
  | "i"%char => Some i32
  | "j"%char => Some i64
  | "f"%char => Some f32
  | "d"%char => Some f64
  | "p"%char => if MEMORY64 cfg then Some i64 else Some i32
  | _ => None
  end.

(** [obj[k]] where the key itself may be [undefined]. *)
Definition lookup_key {V} (obj : ascii -> option V) (k : option ascii) : option V :=
  match k with
  | Some c => obj c
  | None => None
  end.

(** [k in obj] *)
Definition key_in {V} (obj : ascii -> option V) (k : option ascii) : bool :=
  match lookup_key obj k with
  | Some _ => true
  | None => false
  end.

Definition is_char (c : ascii) (k : option ascii) : bool :=
  match k with
  | Some c' => Ascii.eqb c' c
  | None => false
  end.

Record FuncType := {
  parameters : list (option valtype);
  results : list (option valtype)
}.

Definition sigToWasmTypes (cfg : Settings) (sig : string) : result FuncType :=
  let results0 :=
    if is_char "v" (String.get 0 sig) then []
    else [lookup_key (typeNames cfg) (String.get 0 sig)] in
  rbind
    (for_loop 1 (String.length sig - 1)
       (fun i params =>
          rbind (assert cfg (key_in (typeNames cfg) (String.get i sig))
                   (Some ("invalid signature char: " +:+ show_char (String.get i sig))))
            (fun _ => Ok (params ++ [lookup_key (typeNames cfg) (String.get i sig)])))
       [])
    (fun params => Ok {| parameters := params; results := results0 |}).

(** A loop over the characters of a string, as the body sees them:
    the characters one after the other. *)
Fixpoint fold_chars {A} (f : option ascii -> A -> result A) (cs : list ascii) (acc : A)
  : result A :=
  match cs with
  | [] => Ok acc
  | c :: r => rbind (f (Some c) acc) (fold_chars f r)
  end.

(** ** Signatures as the specification describes them *)

(** The parameter tags. *)
Definition is_tag (c : ascii) : bool :=
  match c with
  | "i"%char | "j"%char | "f"%char | "d"%char | "p"%char => true
  | _ => false
  end.

(** A valid signature: a result tag (a parameter tag or the void
    sentinel [v]) followed by parameter tags. *)
Definition valid_sig (sig : string) : bool :=
  match sig with
  | EmptyString => false
  | String r ps =>
      (Ascii.eqb r "v" || is_tag r) && forallb is_tag (list_ascii_of_string ps)
  end.

(** The wire type of a tag, as the specification lists them. *)
Inductive wire_type (cfg : Settings) : ascii -> valtype -> Prop :=
  | wire_i : wire_type cfg "i" i32
  | wire_j : wire_type cfg "j" i64
  | wire_f : wire_type cfg "f" f32
  | wire_d : wire_type cfg "d" f64
  | wire_p32 : MEMORY64 cfg = false -> wire_type cfg "p" i32
  | wire_p64 : MEMORY64 cfg = true -> wire_type cfg "p" i64.

(** Unsigned LEB128 as the specification words it: seven bits per
    byte, least-significant group first, bit 7 set on every byte but
    the last. *)
Fixpoint uleb128_ref (fuel : nat) (n : Z) : list Z :=
  match fuel with
  | O => []
  | S f =>
      if n <? 128 then [n]
      else (n mod 128 + 128) :: uleb128_ref f (n / 128)
  end.

Definition uleb128 (n : Z) : list Z := uleb128_ref (S (Z.to_nat (Z.log2 n))) n.

Fixpoint uleb128_decode (bs : list Z) : Z :=
  match bs with
  | [] => 0
  | b :: r => Z.land b 127 + 128 * uleb128_decode r
  end.

(** Bit 7 set on every byte but the last, clear on the last. *)
Fixpoint continuation_ok (bs : list Z) : bool :=
  match bs with
  | [] => false
  | [b] => negb (Z.testbit b 7)
  | b :: r => Z.testbit b 7 && continuation_ok r
  end.

(** ** convertJsFunctionToWasm: the bytes of the synthesized module *)

(** The object literal [typeCodes]. *)
Definition typeCodes (cfg : Settings) (c : ascii) : option Z :=
  match c with
  | "i"%char => Some 0x7f
  | "p"%char => if MEMORY64 cfg then Some 0x7e else Some 0x7f
  | "j"%char => Some 0x7e
  | "f"%char => Some 0x7d
  | "d"%char => Some 0x7c
  | _ => None
  end.

Definition js_of_lookup (o : option Z) : jsval :=
  match o with
  | Some z => JNum z
  | None => JUndefined
  end.

(** [sig.slice(0, 1)] and [sig.slice(1)] *)
Definition sigRet_of (sig : string) : string := substring 0 1 sig.
Definition sigParam_of (sig : string) : string :=
  substring 1 (String.length sig - 1) sig.

(** The local [typeSectionBody] once it is complete. *)
Definition typeSectionBody_of (cfg : Settings) (sig : string) : result (list jsval) :=
  let typeSectionBody := [JNum 0x01; JNum 0x60] in
  let sigRet := sigRet_of sig in
  let sigParam := sigParam_of sig in
  rbind (uleb128Encode cfg (Z.of_nat (String.length sigParam)) typeSectionBody)
    (fun typeSectionBody =>
  rbind
    (for_loop 0 (String.length sigParam)
       (fun i body =>
          rbind (assert cfg (key_in (typeCodes cfg) (String.get i sigParam))
                   (Some ("invalid signature char: " +:+ show_char (String.get i sigParam))))
            (fun _ => Ok (body ++ [js_of_lookup (lookup_key (typeCodes cfg) (String.get i sigParam))])))
       typeSectionBody)
    (fun typeSectionBody =>
  if String.eqb sigRet "v" then
    Ok (typeSectionBody ++ [JNum 0x00])
  else
    Ok (typeSectionBody ++
          [JNum 0x01; js_of_lookup (lookup_key (typeCodes cfg) (String.get 0 sigRet))]))).

(** The local [bytes] at the point where it is handed to
    [new Uint8Array(bytes)]. *)
Definition convertJsFunctionToWasm_bytes (cfg : Settings) (sig : string)
  : result (list jsval) :=
  rbind (typeSectionBody_of cfg sig) (fun typeSectionBody =>
  let bytes :=
    [JNum 0x00; JNum 0x61; JNum 0x73; JNum 0x6d;
     JNum 0x01; JNum 0x00; JNum 0x00; JNum 0x00;
     JNum 0x01] in
  rbind (uleb128Encode cfg (Z.of_nat (length typeSectionBody)) bytes) (fun bytes =>
  let bytes := bytes ++ typeSectionBody in
  Ok (bytes ++
        [JNum 0x02; JNum 0x07;
         JNum 0x01; JNum 0x01; JNum 0x65; JNum 0x01; JNum 0x66; JNum 0x00; JNum 0x00;
         JNum 0x07; JNum 0x05;
         JNum 0x01; JNum 0x01; JNum 0x66; JNum 0x00; JNum 0x00]))).

(** ** Callables, the table and the state of the library *)

(** Function objects, compared by identity.  A [WasmFunc] is a function
    exported by some wasm instance, a [JsFunc] a plain JS function, and
    [Wrapper n] the export of the [n]-th instance synthesized by
    [convertJsFunctionToWasm] (or the [n]-th [WebAssembly.Function]). *)
Inductive callable :=
  | WasmFunc (id : nat)
  | JsFunc (id : nat)
  | Wrapper (serial : nat).

#[global] Instance callable_eq_dec : EqDecision callable.
Proof. solve_decision. Defined.

#[global] Instance callable_countable : Countable callable.
Proof.
  refine (inj_countable'
    (fun f => match f with
              | WasmFunc n => inl (inl n)
              | JsFunc n => inl (inr n)
              | Wrapper n => inr n
              end)
    (fun x => match x with
              | inl (inl n) => WasmFunc n
              | inl (inr n) => JsFunc n
              | inr n => Wrapper n
              end) _).
  intros []; reflexivity.
Defined.

(** The host: whether [WebAssembly.Function] exists (and which type
    descriptors its constructor accepts), which byte sequences
    [new WebAssembly.Module] compiles, whether [new WebAssembly.Instance]
    links the module of given bytes with a given wasm function as its
    import (the function has the type the module imports), and the
    text [Function.prototype.toString] gives for a function object. *)
Record Host := {
  WebAssembly_Function : option (FuncType -> bool);
  WebAssembly_Module : list Z -> bool;
  WebAssembly_Instance : list Z -> callable -> bool;
  Function_toString : callable -> string
}.

Record State := {
  wasmTable : list (option callable);
  wasmTable_maximum : option nat;
  freeTableIndexes : list nat;
  functionsInTableMap : option (gmap callable nat);
  instances : nat
}.

(** A computation that reads and writes the state and may throw; what
    was written before a throw stays written. *)
Definition M (A : Type) : Type := State -> result A * State.

Definition ret {A} (a : A) : M A := fun st => (Ok a, st).
Definition throw {A} (e : exn) : M A := fun st => (Throw e, st).
Definition bind {A B} (m : M A) (k : A -> M B) : M B :=
  fun st =>
    match m st with
    | (Ok a, st') => k a st'
    | (Throw e, st') => (Throw e, st')
    end.
Definition lift {A} (r : result A) : M A := fun st => (r, st).

(** [try { m } catch (err) { handler(err) }] *)
Definition try_catch {A} (m : M A) (handler : exn -> M A) : M A :=
  fun st =>
    match m st with
    | (Ok a, st') => (Ok a, st')
    | (Throw e, st') => handler e st'
    end.

Notation "'let*' x ':=' m 'in' k" := (bind m (fun x => k))
  (at level 10, x name, m at level 100, k at level 200).
Notation "m ;; k" := (bind m (fun _ => k))
  (at level 100, k at level 200, right associativity).

Fixpoint for_each (start count : nat) (body : nat -> M unit) : M unit :=
  match count with
  | O => ret tt
  | S n => body start ;; for_each (S start) n body
  end.

(** [a.push(x)] and [a.pop()] on a JS array kept in index order. *)
Definition array_push {A} (a : list A) (x : A) : list A := a ++ [x].
Definition array_pop {A} (a : list A) : option (A * list A) :=
  match rev a with
  | [] => None
  | x :: r => Some (x, rev r)
  end.

(** Whether [WebAssembly.Table.prototype.set] takes the value: a plain
    JS function is not a table entry. *)
Definition table_accepts (f : callable) : bool :=
  match f with
  | JsFunc _ => false
  | _ => true
  end.

(** Modelled from the spec: the Table collaborator ([wasmTable]) with
    its [length], [get], [set] and [grow]; a bad index is a
    [RangeError], a value that is no table entry a [TypeError], growth
    beyond the maximum a [RangeError]. *)
Definition wasmTable_get (i : nat) : M (option callable) :=
  fun st =>
    match wasmTable st !! i with
    | Some entry => (Ok entry, st)
    | None => (Throw RangeError, st)
    end.

Definition set_wasmTable (t : list (option callable)) (st : State) : State :=
  {| wasmTable := t;
     wasmTable_maximum := wasmTable_maximum st;
     freeTableIndexes := freeTableIndexes st;
     functionsInTableMap := functionsInTableMap st;
     instances := instances st |}.

Definition wasmTable_set (i : nat) (f : callable) : M unit :=
  fun st =>
    if negb (table_accepts f) then (Throw TypeError, st)
    else if (i <? length (wasmTable st))%nat then
      (Ok tt, set_wasmTable (<[i := Some f]> (wasmTable st)) st)
    else (Throw RangeError, st).

Definition wasmTable_grow (delta : nat) : M unit :=
  fun st =>
    let fits :=
      match wasmTable_maximum st with
      | Some max => (length (wasmTable st) + delta <=? max)%nat
      | None => true
      end in
    if fits then (Ok tt, set_wasmTable (wasmTable st ++ replicate delta None) st)
    else (Throw RangeError, st).

(** Modelled from the spec: [getWasmTableEntry] and [setWasmTableEntry]
    (defined outside this file) are the Table's [get] and [set]. *)
Definition getWasmTableEntry (i : nat) : M (option callable) := wasmTable_get i.
Definition setWasmTableEntry (i : nat) (f : callable) : M unit := wasmTable_set i f.

Definition set_freeTableIndexes (l : list nat) (st : State) : State :=
  {| wasmTable := wasmTable st;
     wasmTable_maximum := wasmTable_maximum st;
     freeTableIndexes := l;
     functionsInTableMap := functionsInTableMap st;
     instances := instances st |}.

Definition set_functionsInTableMap (m : option (gmap callable nat)) (st : State) : State :=
  {| wasmTable := wasmTable st;
     wasmTable_maximum := wasmTable_maximum st;
     freeTableIndexes := freeTableIndexes st;
     functionsInTableMap := m;
     instances := instances st |}.

(** A new function object leaves the host: the next [Wrapper]. *)
Definition new_wrapper : M callable :=
  fun st =>
    (Ok (Wrapper (instances st)),
     {| wasmTable := wasmTable st;
        wasmTable_maximum := wasmTable_maximum st;
        freeTableIndexes := freeTableIndexes st;
        functionsInTableMap := functionsInTableMap st;
        instances := S (instances st) |}).

(** [new WebAssembly.Instance(module, {'e': {'f': func}}).exports['f']]
    for the module of the given bytes, which imports [e.f] and exports
    it as [f]: a JS function is imported as it is and its export is a
    new function object; a wasm function is imported only under its
    own type (a [LinkError] otherwise) and its export is that function
    itself. *)
Definition instance_export (host : Host) (bytes : list Z) (func : callable)
  : M callable :=
  match func with
  | JsFunc _ => new_wrapper
  | _ =>
      if WebAssembly_Instance host bytes func then ret func
      else throw LinkError
  end.

(** ** convertJsFunctionToWasm

    [sig] is [None] when the caller passed no signature ([undefined]):
    reading [sig[0]] or [sig.slice] then is a [TypeError]. *)
Definition convertJsFunctionToWasm (cfg : Settings) (host : Host)
    (func : callable) (sig : option string) : M callable :=
  if WASM2JS cfg then ret func
  else
    match WebAssembly_Function host with
    | Some construct =>
        match sig with
        | None => throw TypeError
        | Some sig =>
            let* type := lift (sigToWasmTypes cfg sig) in
            if construct type then new_wrapper else throw TypeError
        end
    | None =>
        match sig with
        | None => throw TypeError
        | Some sig =>
            let* bytes := lift (convertJsFunctionToWasm_bytes cfg sig) in
            if WebAssembly_Module host (Uint8Array bytes) then
              instance_export host (Uint8Array bytes) func
            else throw CompileError
        end
    end.

(** ** getEmptyTableSlot *)

Definition gets {A} (f : State -> A) : M A := fun st => (Ok (f st), st).
Definition modify (f : State -> State) : M unit := fun st => (Ok tt, f st).

Definition getEmptyTableSlot : M nat :=
  let* free := gets freeTableIndexes in
  match array_pop free with
  | Some (index, rest) =>
      modify (set_freeTableIndexes rest) ;;
      ret index
  | None =>
      try_catch (wasmTable_grow 1)
        (fun err =>
           match err with
           | RangeError =>
               throw (ThrownString "Unable to grow wasm table. Set ALLOW_TABLE_GROWTH.")
           | _ => throw err
           end) ;;
      let* table := gets wasmTable in
      ret (length table - 1)%nat
  end.

(** ** updateTableMap *)

(** The methods of [functionsInTableMap]; a method call on [undefined]
    is a [TypeError]. *)
Definition the_map : M (gmap callable nat) :=
  let* map := gets functionsInTableMap in
  match map with
  | Some m => ret m
  | None => throw TypeError
  end.

Definition map_set (key : callable) (value : nat) : M unit :=
  let* m := the_map in
  modify (set_functionsInTableMap (Some (<[key := value]> m))).

Definition map_delete (key : option callable) : M unit :=
  let* m := the_map in
  match key with
  | Some f => modify (set_functionsInTableMap (Some (delete f m)))
  | None => ret tt
  end.

Definition updateTableMap (offset count : nat) : M unit :=
  for_each offset count (fun i =>
    let* item := getWasmTableEntry i in
    match item with
    | Some f => map_set f i
    | None => ret tt
    end).

(** ** addFunction

    [func] is a function object, so [assert(typeof func != 'undefined')]
    holds; [sig] is [None] when the optional argument is left out. *)

(** [func] concatenated to a string: the text its [toString] gives,
    the source text of a JS function. *)
Definition show_callable (host : Host) (f : callable) : string :=
  Function_toString host f.

Definition addFunction (cfg : Settings) (host : Host)
    (func : callable) (sig : option string) : M nat :=
  let* map := gets functionsInTableMap in
  match map with
  | None =>
      modify (set_functionsInTableMap (Some ∅)) ;;
      let* table := gets wasmTable in
      updateTableMap 0 (length table)
  | Some _ => ret tt
  end ;;
  let* m := the_map in
  match m !! func with
  | Some index => ret index
  | None =>
      (if (2 <=? ASSERTIONS cfg)%nat then
         let* table := gets wasmTable in
         for_each 0 (length table) (fun i =>
           let* entry := getWasmTableEntry i in
           lift (assert cfg (negb (bool_decide (entry = Some func)))
                   (Some "function in Table but not functionsInTableMap")))
       else ret tt) ;;
      let* index := getEmptyTableSlot in
      try_catch (setWasmTableEntry index func)
        (fun err =>
           match err with
           | TypeError =>
               lift (assert cfg (bool_decide (sig <> None))
                       (Some ("Missing signature argument to addFunction: "
                                +:+ show_callable host func))) ;;
               let* wrapped := convertJsFunctionToWasm cfg host func sig in
               setWasmTableEntry index wrapped
           | _ => throw err
           end) ;;
      map_set func index ;;
      ret index
  end.

(** ** removeFunction *)

Definition removeFunction (index : nat) : M unit :=
  the_map ;;
  let* entry := getWasmTableEntry index in
  map_delete entry ;;
  let* free := gets freeTableIndexes in
  modify (set_freeTableIndexes (array_push free index)).

(** The synthesized module as the specification lays it out. *)
Definition code_of (t : valtype) : Z :=
  match t with
  | i32 => 0x7F
  | i64 => 0x7E
  | f32 => 0x7D
  | f64 => 0x7C
  end.

Definition spec_result_bytes (result : option valtype) : list Z :=
  match result with
  | None => [0x00]
  | Some t => [0x01; code_of t]
  end.

Definition spec_type_section_body (params : list valtype) (result : option valtype)
  : list Z :=
  [0x01; 0x60] ++ uleb128 (Z.of_nat (length params)) ++ map code_of params
    ++ spec_result_bytes result.

Definition spec_module_bytes (params : list valtype) (result : option valtype)
  : list Z :=
  [0x00; 0x61; 0x73; 0x6D] ++ [0x01; 0x00; 0x00; 0x00] ++
  [0x01] ++ uleb128 (Z.of_nat (length (spec_type_section_body params result))) ++
  spec_type_section_body params result ++
  [0x02; 0x07; 0x01; 0x01; 0x65; 0x01; 0x66; 0x00; 0x00] ++
  [0x07; 0x05; 0x01; 0x01; 0x66; 0x00; 0x00].

(** A valid signature of 16378 parameters with a non-void result:
    its type-section body is exactly 2^14 bytes long. *)
Definition long_signature : string :=
  String "i" (string_of_list_ascii (replicate (Z.to_nat 16378) "i"%char)).

(** ** The registry as a mapping *)

(** What the first-use scan records: every non-null entry with its
    index, a later index winning over an earlier one. *)
Fixpoint scan_table (offset : nat) (entries : list (option callable))
    (m : gmap callable nat) : gmap callable nat :=
  match entries with
  | [] => m
  | Some f :: rest => scan_table (S offset) rest (<[f := offset]> m)
  | None :: rest => scan_table (S offset) rest m
  end.

(** The state once [functionsInTableMap] exists. *)
Definition initialized (st : State) : State :=
  match functionsInTableMap st with
  | Some _ => st
  | None => set_functionsInTableMap (Some (scan_table 0 (wasmTable st) ∅)) st
  end.

(** The mapping a registration request consults. *)
Definition registry (st : State) : gmap callable nat :=
  match functionsInTableMap st with
  | Some m => m
  | None => scan_table 0 (wasmTable st) ∅
  end.

(** Whether [wasmTable.grow(1)] would succeed. *)
Definition growable (st : State) : bool :=
  match wasmTable_maximum st with
  | Some max => (length (wasmTable st) + 1 <=? max)%nat
  | None => true
  end.

(** A callable that exists in state [st]: no wrapper of an instance
    that is yet to be created. *)
Definition existing (st : State) (f : callable) : bool :=
  match f with
  | Wrapper n => (n <? instances st)%nat
  | _ => true
  end.

(** What a slot acquisition leaves behind: the slot came off the
    FreeList, or the table grew by the slot. *)
Definition acquired (st : State) (k : nat) (st' : State) : Prop :=
  wasmTable_maximum st' = wasmTable_maximum st /\
  functionsInTableMap st' = functionsInTableMap st /\
  instances st' = instances st /\
  ((array_pop (freeTableIndexes st) = Some (k, freeTableIndexes st') /\
    wasmTable st' = wasmTable st) \/
   (freeTableIndexes st = [] /\ freeTableIndexes st' = [] /\
    growable st = true /\ k = length (wasmTable st) /\
    wasmTable st' = wasmTable st ++ [None])).

(** Whether the host turns a JS function of signature [sig] into a
    table entry. *)
Definition converts (cfg : Settings) (host : Host) (sig : string) : bool :=
  match WebAssembly_Function host with
  | Some construct =>
      match sigToWasmTypes cfg sig with
      | Ok type => construct type
      | Throw _ => false
      end
  | None =>
      match convertJsFunctionToWasm_bytes cfg sig with
      | Ok bytes => WebAssembly_Module host (Uint8Array bytes)
      | Throw _ => false
      end
  end.

(** A callable that can be placed in the table: the table takes it as
    it is, or it comes with a signature the host can wrap it for. *)
Definition registrable (cfg : Settings) (host : Host) (f : callable)
    (sig : option string) : bool :=
  table_accepts f ||
  (negb (WASM2JS cfg) &&
   match sig with
   | Some sig => converts cfg host sig
   | None => false
   end).

(** ** Concrete settings, hosts and states *)

Definition release_build : Settings :=
  {| ASSERTIONS := 0; MEMORY64 := false; WASM2JS := false |}.

(** A host without [WebAssembly.Function] that compiles and links the
    modules it is given. *)
Definition fallback_host : Host :=
  {| WebAssembly_Function := None;
     WebAssembly_Module := fun _ => true;
     WebAssembly_Instance := fun _ _ => true;
     Function_toString := fun f =>
       match f with
       | JsFunc _ => "function () { }"
       | _ => "function () { [native code] }"
       end |}.

(** An empty table that may grow, nothing released, no registry yet. *)
Definition empty_state : State :=
  {| wasmTable := [];
     wasmTable_maximum := None;
     freeTableIndexes := [];
     functionsInTableMap := None;
     instances := 0 |}.

(** A table of one entry that may grow. *)
Definition open_state : State :=
  {| wasmTable := [Some (WasmFunc 0)];
     wasmTable_maximum := None;
     freeTableIndexes := [];
     functionsInTableMap := None;
     instances := 0 |}.

(** A table of one entry that is at its maximum. *)
Definition full_state : State :=
  {| wasmTable := [Some (WasmFunc 0)];
     wasmTable_maximum := Some 1%nat;
     freeTableIndexes := [];
     functionsInTableMap := None;
     instances := 0 |}.

(** ** Consistency of the registry, the table and the FreeList

    The registry points at table entries that hold the registered
    callable itself, and the released slots are distinct, in range and
    not registered. *)
Record consistent (st : State) : Prop := {
  registered_in_table :
    forall f k, registry st !! f = Some k -> wasmTable st !! k = Some (Some f);
  free_nodup : NoDup (freeTableIndexes st);
  free_in_range :
    forall k, k ∈ freeTableIndexes st -> (k < length (wasmTable st))%nat;
  free_unregistered :
    forall k f, k ∈ freeTableIndexes st -> registry st !! f <> Some k
}.

(** A request to the library, and the state it leaves (whether it
    returns or throws). *)
Inductive request :=
  | Register (f : callable) (sig : option string)
  | Unregister (index : nat).

Definition serve (cfg : Settings) (host : Host) (rq : request) (st : State) : State :=
  match rq with
  | Register f sig => snd (addFunction cfg host f sig st)
  | Unregister index => snd (removeFunction index st)
  end.

Fixpoint serve_all (cfg : Settings) (host : Host) (rqs : list request) (st : State)
  : State :=
  match rqs with
  | [] => st
  | rq :: rest => serve_all cfg host rest (serve cfg host rq st)
  end.

(** Requests for callables the table holds as they are, and releases
    of slots that are registered at the time. *)
Definition in_contract (rq : request) (st : State) : Prop :=
  match rq with
  | Register f _ => table_accepts f = true
  | Unregister index => exists f, registry st !! f = Some index
  end.

Fixpoint all_in_contract (cfg : Settings) (host : Host) (rqs : list request)
    (st : State) : Prop :=
  match rqs with
  | [] => True
  | rq :: rest =>
      in_contract rq st /\ all_in_contract cfg host rest (serve cfg host rq st)
  end.

(** Projections of updated states. *)
Ltac fields :=
  cbn [wasmTable wasmTable_maximum freeTableIndexes functionsInTableMap instances
       set_wasmTable set_freeTableIndexes set_functionsInTableMap] in *.

(** * Properties *)

(** ** Arithmetic of the encoder *)

Section Leb128.

Lemma toInt32_small z : -2 ^ 31 <= z < 2 ^ 31 -> toInt32 z = z.
Proof. intros Hz. unfold toInt32. rewrite Z.mod_small; lia. Qed.

Lemma low7_bit7 a : 0 <= a < 128 -> Z.testbit a 7 = false.
Proof.
  intros Ha. apply Z.testbit_false; [lia|].
  change (2 ^ 7) with 128. rewrite Z.div_small; auto.
Qed.

Lemma high_bit7 a : 0 <= a < 128 -> Z.testbit (a + 128) 7 = true.
Proof.
  intros Ha. apply Z.testbit_true; [lia|].
  change (2 ^ 7) with 128.
  replace (a + 128) with (a + 1 * 128) by lia.
  rewrite Z.div_add, Z.div_small; auto; lia.
Qed.

Lemma lor_128 a : 0 <= a < 128 -> Z.lor a 128 = a + 128.
Proof.
  intros Ha.
  assert (Hland : Z.land a 128 = 0).
  { apply Z.bits_inj'. intros k Hk.
    rewrite Z.land_spec, Z.bits_0.
    destruct (Z.eq_dec k 7) as [->|Hne].
    - rewrite low7_bit7; auto.
    - change 128 with (2 ^ 7). rewrite Z.pow2_bits_false by lia.
      apply andb_false_r. }
  rewrite <- Z.lxor_lor by exact Hland.
  symmetry. apply Z.add_nocarry_lxor. exact Hland.
Qed.

Lemma js_or_128 n : 0 <= n -> js_or (js_rem n 128) 128 = n mod 128 + 128.
Proof.
  intros Hn. unfold js_or, js_rem.
  rewrite Z.rem_mod_nonneg by lia.
  pose proof (Z.mod_pos_bound n 128 ltac:(lia)) as Hm.
  rewrite !toInt32_small by lia.
  apply lor_128. exact Hm.
Qed.

Lemma js_sar_7 n : 0 <= n < 2 ^ 31 -> js_sar n 7 = n / 128.
Proof.
  intros Hn. unfold js_sar. rewrite toInt32_small by lia.
  rewrite Z.shiftr_div_pow2 by lia. reflexivity.
Qed.

Lemma land_127 b : Z.land b 127 = b mod 128.
Proof. change 127 with (Z.ones 7). rewrite Z.land_ones by lia. reflexivity. Qed.

(** The reference encoder is an encoding: it decodes back, carries
    the continuation bit where it must, and is made of bytes. *)
Lemma uleb128_ref_ok fuel : forall n,
  (0 < fuel)%nat ->
  0 <= n < 128 ^ Z.of_nat fuel ->
  uleb128_decode (uleb128_ref fuel n) = n /\
  continuation_ok (uleb128_ref fuel n) = true /\
  Forall (fun b => 0 <= b < 256) (uleb128_ref fuel n).
Proof.
  induction fuel as [|fuel IH]; intros n Hfuel Hn.
  - lia.
  - simpl uleb128_ref. destruct (Z.ltb_spec n 128) as [Hlt|Hge].
    + cbn [uleb128_decode continuation_ok].
      rewrite land_127, Z.mod_small by lia.
      rewrite low7_bit7 by lia.
      repeat split; [lia | constructor; [lia | constructor]].
    + assert (Hq : 0 <= n / 128 < 128 ^ Z.of_nat fuel).
      { rewrite Nat2Z.inj_succ, Z.pow_succ_r in Hn by lia.
        split; [apply Z.div_pos; lia | apply Z.div_lt_upper_bound; lia]. }
      assert (Hpos : (0 < fuel)%nat).
      { destruct fuel; [|lia]. simpl in Hq.
        assert (1 <= n / 128) by (apply Z.div_le_lower_bound; lia). lia. }
      destruct (IH _ Hpos Hq) as (Hdec & Hcont & Hbytes).
      pose proof (Z.mod_pos_bound n 128 ltac:(lia)) as Hm.
      repeat split.
      * cbn [uleb128_decode]. rewrite Hdec, land_127.
        replace (n mod 128 + 128) with (n mod 128 + 1 * 128) by lia.
        rewrite Z.mod_add, Z.mod_mod by lia.
        pose proof (Z.div_mod n 128 ltac:(lia)). lia.
      * destruct (uleb128_ref fuel (n / 128)) as [|b r] eqn:Hr;
          [discriminate Hcont|].
        cbn [continuation_ok] in *. rewrite high_bit7 by lia. exact Hcont.
      * constructor; [lia | exact Hbytes].
Qed.

Lemma uleb128_fuel n : 0 <= n -> n < 128 ^ Z.of_nat (S (Z.to_nat (Z.log2 n))).
Proof.
  intros Hn.
  destruct (Z.eq_dec n 0) as [->|Hne]; [reflexivity|].
  pose proof (Z.log2_nonneg n) as Hl.
  pose proof (Z.log2_spec n ltac:(lia)) as [_ Hub].
  rewrite Nat2Z.inj_succ, Z2Nat.id by lia.
  eapply Z.lt_le_trans; [exact Hub|].
  apply Z.pow_le_mono_l. lia.
Qed.

Lemma uleb128_ok n :
  0 <= n ->
  uleb128_decode (uleb128 n) = n /\
  continuation_ok (uleb128 n) = true /\
  Forall (fun b => 0 <= b < 256) (uleb128 n).
Proof.
  intros Hn. apply uleb128_ref_ok; [lia|].
  split; [lia | apply uleb128_fuel; lia].
Qed.

Lemma uleb128_one_byte n : 0 <= n < 128 -> uleb128 n = [n].
Proof.
  intros Hn. unfold uleb128. simpl.
  destruct (Z.ltb_spec n 128); [reflexivity | lia].
Qed.

Lemma uleb128_two_bytes n :
  128 <= n < 2 ^ 14 -> uleb128 n = [n mod 128 + 128; n / 128].
Proof.
  intros Hn. unfold uleb128.
  assert (Hlog : 7 <= Z.log2 n).
  { change 7 with (Z.log2 128). apply Z.log2_le_mono. lia. }
  destruct (Z.to_nat (Z.log2 n)) as [|k] eqn:Hk; [lia|].
  simpl.
  destruct (Z.ltb_spec n 128); [lia|].
  assert (n / 128 < 128) by (apply Z.div_lt_upper_bound; lia).
  destruct (Z.ltb_spec (n / 128) 128); [reflexivity | lia].
Qed.

(** What the code appends, for every argument below 2^14. *)
Lemma uleb128Encode_small cfg n target :
  0 <= n < 2 ^ 14 ->
  uleb128Encode cfg n target = Ok (target ++ map JNum (uleb128 n)).
Proof.
  intros Hn. unfold uleb128Encode, assert.
  assert (Hlt : (n <? 16384) = true) by (apply Z.ltb_lt; lia).
  rewrite Hlt.
  assert (Hasrt : (if (0 <? ASSERTIONS cfg)%nat then Ok tt else Ok tt) = Ok tt)
    by (destruct (0 <? ASSERTIONS cfg)%nat; reflexivity).
  rewrite Hasrt. simpl.
  destruct (Z.ltb_spec n 128) as [Hs|Hb].
  - rewrite uleb128_one_byte by lia. reflexivity.
  - rewrite uleb128_two_bytes by lia. simpl.
    rewrite js_or_128, js_sar_7 by lia. reflexivity.
Qed.

End Leb128.

(** ** Loops over the characters of a signature *)

Section Loops.

Context {A : Type}.

Lemma for_loop_shift (body body' : nat -> A -> result A) count :
  (forall i a, body' i a = body (S i) a) ->
  forall start acc,
    for_loop (S start) count body acc = for_loop start count body' acc.
Proof.
  intros Hb. induction count as [|count IH]; intros start acc; simpl.
  - reflexivity.
  - rewrite Hb. destruct (body (S start) acc); simpl; auto.
Qed.

Lemma for_loop_string (f : option ascii -> A -> result A) s : forall acc,
  for_loop 0 (String.length s) (fun i => f (String.get i s)) acc
  = fold_chars f (list_ascii_of_string s) acc.
Proof.
  induction s as [|c s IH]; intros acc; simpl.
  - reflexivity.
  - destruct (f (Some c) acc) as [a|e]; simpl; [|reflexivity].
    rewrite <- IH. apply for_loop_shift. reflexivity.
Qed.

End Loops.

Lemma substring_all s : substring 0 (String.length s) s = s.
Proof. induction s as [|c s IH]; simpl; [reflexivity | now rewrite IH]. Qed.

Lemma sigParam_of_cons r ps : sigParam_of (String r ps) = ps.
Proof.
  unfold sigParam_of. simpl. rewrite Nat.sub_0_r. apply substring_all.
Qed.

Lemma sigRet_of_cons r ps : sigRet_of (String r ps) = String r EmptyString.
Proof. unfold sigRet_of. simpl. destruct ps; reflexivity. Qed.

Lemma assert_true cfg text : assert cfg true text = Ok tt.
Proof. unfold assert. destruct (0 <? ASSERTIONS cfg)%nat; reflexivity. Qed.

Lemma is_tag_typeNames cfg c :
  is_tag c = true -> exists t, typeNames cfg c = Some t /\ wire_type cfg c t.
Proof.
  intros Hc.
  destruct c as [[] [] [] [] [] [] [] []]; try discriminate Hc; simpl;
    try (eexists; split; [reflexivity | constructor]).
  destruct (MEMORY64 cfg) eqn:Hm; eexists; split; try reflexivity;
    constructor; exact Hm.
Qed.

Lemma typeNames_is_tag cfg c : is_tag c = false -> typeNames cfg c = None.
Proof.
  intros Hc.
  destruct c as [[] [] [] [] [] [] [] []]; try discriminate Hc; reflexivity.
Qed.

(** On parameter tags the loop of [sigToWasmTypes] never fails and
    appends one wire type per character. *)
Lemma sigToWasmTypes_loop cfg cs : forall acc,
  forallb is_tag cs = true ->
  exists ps,
    fold_chars
      (fun k params =>
         rbind (assert cfg (key_in (typeNames cfg) k)
                  (Some ("invalid signature char: " +:+ show_char k)))
           (fun _ => Ok (params ++ [lookup_key (typeNames cfg) k])))
      cs acc = Ok (acc ++ ps) /\
    Forall2 (fun c o => exists t, wire_type cfg c t /\ o = Some t) cs ps.
Proof.
  induction cs as [|c cs IH]; intros acc Hcs; cbn [fold_chars].
  - exists []. rewrite app_nil_r. split; [reflexivity | constructor].
  - simpl in Hcs. apply andb_true_iff in Hcs as [Hc Hcs].
    destruct (is_tag_typeNames cfg c Hc) as (t & Ht & Hw).
    unfold key_in at 1. cbn [lookup_key]. rewrite Ht, assert_true. cbn [rbind].
    destruct (IH (acc ++ [Some t]) Hcs) as (ps & Hps & Hall).
    exists (Some t :: ps). rewrite Hps, <- app_assoc. simpl.
    split; [reflexivity|]. constructor; eauto.
Qed.

(** ** The integer encoder *)

(** C7: for every [n] with [0 <= n < 2^14], [uleb128Encode n target]
    returns [target] with the unsigned LEB128 encoding of [n] appended
    (seven bits per byte, least-significant group first, bit 7 set on
    every byte but the last) and changes nothing else; for 0, 1, 127,
    128, 129 and 16383 the appended bytes are [0], [1], [127],
    [0x80, 1], [0x81, 1] and [0xFF, 0x7F]. *)
Theorem uleb128Encode_appends_leb128 (cfg : Settings) (target : list jsval) (n : Z)
    (Hn : 0 <= n < 2 ^ 14) :
  (uleb128Encode cfg n target = Ok (target ++ map JNum (uleb128 n)) /\
   uleb128_decode (uleb128 n) = n /\
   continuation_ok (uleb128 n) = true /\
   Forall (fun b => 0 <= b < 256) (uleb128 n)) /\
  uleb128Encode cfg 0 target = Ok (target ++ [JNum 0]) /\
  uleb128Encode cfg 1 target = Ok (target ++ [JNum 1]) /\
  uleb128Encode cfg 127 target = Ok (target ++ [JNum 127]) /\
  uleb128Encode cfg 128 target = Ok (target ++ [JNum 0x80; JNum 1]) /\
  uleb128Encode cfg 129 target = Ok (target ++ [JNum 0x81; JNum 1]) /\
  uleb128Encode cfg 16383 target = Ok (target ++ [JNum 0xFF; JNum 0x7F]).
Proof.
  split.
  - split; [apply uleb128Encode_small; exact Hn | apply uleb128_ok; lia].
  - repeat split; rewrite uleb128Encode_small by lia; reflexivity.
Qed.

Lemma uleb128Encode_appends_leb128_witness :
  0 <= 300 < 2 ^ 14 /\
  uleb128Encode {| ASSERTIONS := 1; MEMORY64 := false; WASM2JS := false |} 300 [JNum 7]
  = Ok [JNum 7; JNum 0xAC; JNum 0x02].
Proof.
  split; [lia|].
  exact (proj1 (proj1 (uleb128Encode_appends_leb128
    {| ASSERTIONS := 1; MEMORY64 := false; WASM2JS := false |} [JNum 7] 300
    ltac:(lia)))).
Defined.

(** ** The signature translator *)

Lemma sigToWasmTypes_cons cfg r ps :
  forallb is_tag (list_ascii_of_string ps) = true ->
  exists params,
    sigToWasmTypes cfg (String r ps)
    = Ok {| parameters := params;
            results := if Ascii.eqb r "v" then [] else [typeNames cfg r] |} /\
    Forall2 (fun c o => exists t, wire_type cfg c t /\ o = Some t)
      (list_ascii_of_string ps) params.
Proof.
  intros Hps. unfold sigToWasmTypes.
  cbn [String.length String.get is_char lookup_key Nat.sub]. rewrite Nat.sub_0_r.
  rewrite (for_loop_shift _
    (fun i params =>
       rbind (assert cfg (key_in (typeNames cfg) (String.get i ps))
                (Some ("invalid signature char: " +:+ show_char (String.get i ps))))
         (fun _ => Ok (params ++ [lookup_key (typeNames cfg) (String.get i ps)]))))
    by reflexivity.
  rewrite (for_loop_string
    (fun k params =>
       rbind (assert cfg (key_in (typeNames cfg) k)
                (Some ("invalid signature char: " +:+ show_char k)))
         (fun _ => Ok (params ++ [lookup_key (typeNames cfg) k])))).
  destruct (sigToWasmTypes_loop cfg _ [] Hps) as (params & Hloop & Hall).
  rewrite Hloop. exists params. split; [reflexivity | exact Hall].
Qed.

(** C8: ["vii"] translates to parameters [i32, i32] and no result,
    ["ifd"] to parameters [f32, f64] and result [i32]; for every valid
    signature the translation succeeds, the result sequence is empty
    exactly when the first character is [v] and otherwise holds the one
    wire type of the first character, and the parameter sequence lists
    the wire types of the remaining characters in order. *)
Theorem sigToWasmTypes_valid (cfg : Settings) (sig : string)
    (Hvalid : valid_sig sig = true) :
  sigToWasmTypes cfg "vii"
    = Ok {| parameters := [Some i32; Some i32]; results := [] |} /\
  sigToWasmTypes cfg "ifd"
    = Ok {| parameters := [Some f32; Some f64]; results := [Some i32] |} /\
  exists type,
    sigToWasmTypes cfg sig = Ok type /\
    (results type = [] <-> String.get 0 sig = Some "v"%char) /\
    (results type <> [] ->
     exists r t, String.get 0 sig = Some r /\ wire_type cfg r t /\
                 results type = [Some t]) /\
    Forall2 (fun c o => exists t, wire_type cfg c t /\ o = Some t)
      (list_ascii_of_string (sigParam_of sig)) (parameters type).
Proof.
  split; [|split].
  - destruct (sigToWasmTypes_cons cfg "v" "ii" eq_refl) as (ps & -> & Hall).
    repeat match goal with
           | H : Forall2 _ _ _ |- _ => inversion H; subst; clear H
           | H : exists _, _ |- _ => destruct H as (? & ? & ->)
           | H : wire_type _ _ _ |- _ => inversion H; subst; clear H
           end.
    reflexivity.
  - destruct (sigToWasmTypes_cons cfg "i" "fd" eq_refl) as (ps & -> & Hall).
    repeat match goal with
           | H : Forall2 _ _ _ |- _ => inversion H; subst; clear H
           | H : exists _, _ |- _ => destruct H as (? & ? & ->)
           | H : wire_type _ _ _ |- _ => inversion H; subst; clear H
           end.
    reflexivity.
  - destruct sig as [|r ps]; [discriminate Hvalid|].
    simpl in Hvalid. apply andb_true_iff in Hvalid as [Hr Hps].
    destruct (sigToWasmTypes_cons cfg r ps Hps) as (params & Heq & Hall).
    eexists. split; [exact Heq|]. rewrite sigParam_of_cons.
    cbn [results parameters String.get].
    destruct (Ascii.eqb_spec r "v") as [->|Hne].
    + repeat split; auto. intros Hnil. contradiction.
    + simpl in Hr. repeat split; auto.
      * intros Hnil. discriminate Hnil.
      * intros Heq'. congruence.
      * intros _. destruct (is_tag_typeNames cfg r Hr) as (t & Ht & Hw).
        exists r, t. rewrite Ht. auto.
Qed.

Lemma sigToWasmTypes_valid_witness :
  valid_sig "jpd" = true /\
  sigToWasmTypes {| ASSERTIONS := 1; MEMORY64 := true; WASM2JS := false |} "jpd"
  = Ok {| parameters := [Some i64; Some f64]; results := [Some i64] |}.
Proof.
  split; [reflexivity|].
  destruct (proj2 (proj2 (sigToWasmTypes_valid
    {| ASSERTIONS := 1; MEMORY64 := true; WASM2JS := false |} "jpd" eq_refl)))
    as (type & Heq & _).
  rewrite Heq. vm_compute in Heq. congruence.
Defined.

Lemma get_list_ascii s : forall i, String.get i s = list_ascii_of_string s !! i.
Proof.
  induction s as [|c s IH]; intros [|i]; simpl; auto.
Qed.

(** The first character of a list that is no parameter tag. *)
Lemma first_non_tag (cs : list ascii) : forall i c,
  cs !! i = Some c -> is_tag c = false ->
  exists good c' rest,
    cs = good ++ c' :: rest /\ forallb is_tag good = true /\
    is_tag c' = false /\ (length good <= i)%nat.
Proof.
  induction cs as [|a cs IH]; intros i c Hi Hc; [discriminate Hi|].
  destruct (is_tag a) eqn:Ha.
  - destruct i as [|i]; simpl in Hi; [congruence|].
    destruct (IH i c Hi Hc) as (good & c' & rest & -> & Hgood & Hc' & Hlen).
    exists (a :: good), c', rest. simpl. rewrite Ha, Hgood.
    repeat split; auto. lia.
  - exists [], a, cs. simpl. repeat split; auto. lia.
Qed.

(** With assertions on, the loop stops at the first character that is
    no parameter tag and reports that character. *)
Lemma sigToWasmTypes_loop_fails cfg good c rest : forall acc,
  (0 < ASSERTIONS cfg)%nat ->
  forallb is_tag good = true -> is_tag c = false ->
  fold_chars
    (fun k params =>
       rbind (assert cfg (key_in (typeNames cfg) k)
                (Some ("invalid signature char: " +:+ show_char k)))
         (fun _ => Ok (params ++ [lookup_key (typeNames cfg) k])))
    (good ++ c :: rest) acc
  = Throw (AssertionFailed (Some ("invalid signature char: " +:+ String c EmptyString))).
Proof.
  intros acc Hassert Hgood Hc. revert acc.
  induction good as [|a good IH]; intros acc; cbn [fold_chars app].
  - unfold key_in at 1. cbn [lookup_key]. rewrite (typeNames_is_tag cfg c Hc).
    unfold assert. apply Nat.ltb_lt in Hassert. rewrite Hassert. reflexivity.
  - simpl in Hgood. apply andb_true_iff in Hgood as [Ha Hgood].
    destruct (is_tag_typeNames cfg a Ha) as (t & Ht & _).
    unfold key_in at 1. cbn [lookup_key]. rewrite Ht, assert_true. cbn [rbind].
    apply IH. exact Hgood.
Qed.

(** Without assertions the translation never fails, whatever the
    characters are. *)
Lemma sigToWasmTypes_unchecked cfg sig :
  ASSERTIONS cfg = O -> exists type, sigToWasmTypes cfg sig = Ok type.
Proof.
  intros Hoff. unfold sigToWasmTypes.
  assert (Hloop : forall count start acc, exists params,
            for_loop start count
              (fun i params =>
                 rbind (assert cfg (key_in (typeNames cfg) (String.get i sig))
                          (Some ("invalid signature char: "
                                   +:+ show_char (String.get i sig))))
                   (fun _ => Ok (params ++ [lookup_key (typeNames cfg) (String.get i sig)])))
              acc = Ok params).
  { induction count as [|count IH]; intros start acc; cbn [for_loop].
    - eexists. reflexivity.
    - unfold assert at 1. rewrite Hoff. cbn [Nat.ltb Nat.leb rbind]. apply IH. }
  destruct (Hloop (String.length sig - 1)%nat 1%nat []) as [params ->].
  eexists. reflexivity.
Qed.

(** C5, as the code has it: in a build with [ASSERTIONS], a signature
    with a character outside [i j f d p] at a parameter position
    (index 1 or later) makes the translation fail with an assertion
    whose text names the first such character; the text carries the
    character only, not its position. *)
Theorem sigToWasmTypes_rejects_parameter (cfg : Settings) (sig : string)
    (i : nat) (c : ascii)
    (Hassert : (0 < ASSERTIONS cfg)%nat)
    (Hpos : (1 <= i)%nat)
    (Hget : String.get i sig = Some c)
    (Hbad : is_tag c = false) :
  exists j c',
    (1 <= j <= i)%nat /\ String.get j sig = Some c' /\ is_tag c' = false /\
    (forall k ck, (1 <= k < j)%nat -> String.get k sig = Some ck -> is_tag ck = true) /\
    sigToWasmTypes cfg sig
    = Throw (AssertionFailed
               (Some ("invalid signature char: " +:+ String c' EmptyString))).
Proof.
  destruct sig as [|r ps]; [discriminate Hget|].
  destruct i as [|i]; [lia|]. cbn [String.get] in Hget.
  rewrite get_list_ascii in Hget.
  destruct (first_non_tag _ _ _ Hget Hbad)
    as (good & c' & rest & Hcs & Hgood & Hc' & Hlen).
  exists (S (length good)), c'. repeat split; [lia | lia | | exact Hc' | |].
  - cbn [String.get]. rewrite get_list_ascii, Hcs.
    rewrite lookup_app_r by lia. now rewrite Nat.sub_diag.
  - intros [|k] ck Hk Hgk; [lia|]. cbn [String.get] in Hgk.
    rewrite get_list_ascii, Hcs, lookup_app_l in Hgk by lia.
    rewrite forallb_forall in Hgood. apply Hgood.
    apply list_elem_of_In, list_elem_of_lookup. eauto.
  - unfold sigToWasmTypes.
    cbn [String.length String.get is_char lookup_key Nat.sub]. rewrite Nat.sub_0_r.
    rewrite (for_loop_shift _
      (fun i params =>
         rbind (assert cfg (key_in (typeNames cfg) (String.get i ps))
                  (Some ("invalid signature char: " +:+ show_char (String.get i ps))))
           (fun _ => Ok (params ++ [lookup_key (typeNames cfg) (String.get i ps)]))))
      by reflexivity.
    rewrite (for_loop_string
      (fun k params =>
         rbind (assert cfg (key_in (typeNames cfg) k)
                  (Some ("invalid signature char: " +:+ show_char k)))
           (fun _ => Ok (params ++ [lookup_key (typeNames cfg) k])))).
    rewrite Hcs, sigToWasmTypes_loop_fails by assumption. reflexivity.
Qed.

Lemma sigToWasmTypes_rejects_parameter_witness :
  String.get 2 "vi?d" = Some "?"%char /\
  sigToWasmTypes {| ASSERTIONS := 1; MEMORY64 := false; WASM2JS := false |} "vi?d"
  = Throw (AssertionFailed (Some "invalid signature char: ?")).
Proof.
  split; [reflexivity|].
  destruct (sigToWasmTypes_rejects_parameter
    {| ASSERTIONS := 1; MEMORY64 := false; WASM2JS := false |} "vi?d" 2 "?"
    ltac:(simpl; lia) ltac:(lia) eq_refl eq_refl)
    as (j & c' & Hj & Hgj & Hc' & _ & Heq).
  rewrite Heq.
  assert (c' = "?"%char) as ->; [|reflexivity].
  destruct j as [|[|[|j]]]; try lia; simpl in Hgj; injection Hgj as <-;
    [discriminate Hc' | reflexivity].
Defined.

(** C5 as stated fails: without [ASSERTIONS] an unknown parameter
    character becomes [undefined] and no error is raised; with
    [ASSERTIONS] the error text is the same wherever the character
    stands, and an unknown character in the result position is not
    checked at all. *)
Lemma sigToWasmTypes_unknown_tag_counterexample :
  sigToWasmTypes {| ASSERTIONS := 0; MEMORY64 := false; WASM2JS := false |} "ix"
    = Ok {| parameters := [None]; results := [Some i32] |} /\
  sigToWasmTypes {| ASSERTIONS := 1; MEMORY64 := false; WASM2JS := false |} "ix"
    = Throw (AssertionFailed (Some "invalid signature char: x")) /\
  sigToWasmTypes {| ASSERTIONS := 1; MEMORY64 := false; WASM2JS := false |} "iix"
    = Throw (AssertionFailed (Some "invalid signature char: x")) /\
  sigToWasmTypes {| ASSERTIONS := 1; MEMORY64 := false; WASM2JS := false |} "xi"
    = Ok {| parameters := [Some i32]; results := [None] |}.
Proof. repeat split; reflexivity. Qed.

(** ** The synthesized module *)

Lemma Uint8Array_bytes (l : list Z) :
  Forall (fun b => 0 <= b < 256) l -> Uint8Array (map JNum l) = l.
Proof.
  unfold Uint8Array.
  induction 1 as [|b l Hb _ IH]; cbn [map toUint8]; [reflexivity|].
  rewrite IH, Z.mod_small by lia. reflexivity.
Qed.

Lemma code_of_byte t : 0 <= code_of t < 256.
Proof. destruct t; simpl; lia. Qed.

Lemma is_tag_typeCodes cfg c :
  is_tag c = true -> exists t, typeCodes cfg c = Some (code_of t) /\ wire_type cfg c t.
Proof.
  intros Hc.
  destruct c as [[] [] [] [] [] [] [] []]; try discriminate Hc; simpl;
    try (eexists; split; [|constructor]; reflexivity).
  destruct (MEMORY64 cfg) eqn:Hm;
    [exists i64 | exists i32]; split; try reflexivity; constructor; exact Hm.
Qed.

(** On parameter tags the loop of [convertJsFunctionToWasm] never
    fails and appends one type code per character. *)
Lemma typeSectionBody_loop cfg cs : forall acc,
  forallb is_tag cs = true ->
  exists ts,
    fold_chars
      (fun k body =>
         rbind (assert cfg (key_in (typeCodes cfg) k)
                  (Some ("invalid signature char: " +:+ show_char k)))
           (fun _ => Ok (body ++ [js_of_lookup (lookup_key (typeCodes cfg) k)])))
      cs acc = Ok (acc ++ map JNum (map code_of ts)) /\
    Forall2 (wire_type cfg) cs ts.
Proof.
  induction cs as [|c cs IH]; intros acc Hcs; cbn [fold_chars].
  - exists []. simpl. rewrite app_nil_r. split; [reflexivity | constructor].
  - simpl in Hcs. apply andb_true_iff in Hcs as [Hc Hcs].
    destruct (is_tag_typeCodes cfg c Hc) as (t & Ht & Hw).
    unfold key_in at 1. cbn [lookup_key]. rewrite Ht, assert_true.
    cbn [rbind js_of_lookup].
    destruct (IH (acc ++ [JNum (code_of t)]) Hcs) as (ts & Hts & Hall).
    exists (t :: ts). rewrite Hts, <- app_assoc. simpl.
    split; [reflexivity|]. constructor; auto.
Qed.

Lemma spec_result_bytes_range result :
  Forall (fun b => 0 <= b < 256) (spec_result_bytes result).
Proof.
  destruct result as [t|]; simpl; repeat constructor; try lia;
    apply code_of_byte.
Qed.

Lemma spec_type_section_body_range params result :
  Forall (fun b => 0 <= b < 256) (spec_type_section_body params result).
Proof.
  unfold spec_type_section_body.
  repeat apply Forall_app_2.
  - repeat constructor; lia.
  - apply uleb128_ok. lia.
  - apply Forall_forall. intros b Hb. apply in_map_iff in Hb as (t & <- & _).
    apply code_of_byte.
  - apply spec_result_bytes_range.
Qed.

Lemma spec_module_bytes_range params result :
  Forall (fun b => 0 <= b < 256) (spec_module_bytes params result).
Proof.
  unfold spec_module_bytes.
  pose proof (spec_type_section_body_range params result) as Hbody.
  set (body := spec_type_section_body params result) in *.
  apply Forall_app_2; [repeat constructor; lia|].
  apply Forall_app_2; [repeat constructor; lia|].
  apply Forall_app_2; [repeat constructor; lia|].
  apply Forall_app_2; [apply uleb128_ok; lia|].
  apply Forall_app_2; [exact Hbody|].
  apply Forall_app_2; repeat constructor; lia.
Qed.

Lemma spec_type_section_body_length params result :
  Z.of_nat (length params) + Z.of_nat (length (spec_result_bytes result)) <= 16379 ->
  0 <= Z.of_nat (length (spec_type_section_body params result)) < 2 ^ 14.
Proof.
  intros Hlen. unfold spec_type_section_body.
  rewrite !length_app, length_map.
  assert (Hu : (length (uleb128 (Z.of_nat (length params))) <= 2)%nat).
  { destruct (Z.ltb_spec (Z.of_nat (length params)) 128).
    - rewrite uleb128_one_byte by lia. simpl. lia.
    - rewrite uleb128_two_bytes by lia. simpl. lia. }
  assert (Hr : (length (spec_result_bytes result) <= 2)%nat)
    by (destruct result; simpl; lia).
  simpl length. lia.
Qed.

(** The type section body the code builds, for a valid signature of at
    most 16383 parameters. *)
Lemma typeSectionBody_of_valid cfg r ps :
  (Ascii.eqb r "v" || is_tag r) = true ->
  forallb is_tag (list_ascii_of_string ps) = true ->
  Z.of_nat (String.length ps) < 16384 ->
  exists params result,
    typeSectionBody_of cfg (String r ps)
      = Ok (map JNum (spec_type_section_body params result)) /\
    Forall2 (wire_type cfg) (list_ascii_of_string ps) params /\
    match result with
    | None => r = "v"%char
    | Some t => wire_type cfg r t
    end.
Proof.
  intros Hr Hps Hlen. unfold typeSectionBody_of.
  rewrite sigParam_of_cons, sigRet_of_cons.
  rewrite uleb128Encode_small by lia. cbn [rbind].
  rewrite (for_loop_string
    (fun k body =>
       rbind (assert cfg (key_in (typeCodes cfg) k)
                (Some ("invalid signature char: " +:+ show_char k)))
         (fun _ => Ok (body ++ [js_of_lookup (lookup_key (typeCodes cfg) k)])))).
  destruct (typeSectionBody_loop cfg _
              ([JNum 1; JNum 96] ++ map JNum (uleb128 (Z.of_nat (String.length ps)))) Hps)
    as (params & Hloop & Hall).
  rewrite Hloop. cbn [rbind].
  assert (Hn : String.length ps = length params).
  { apply Forall2_length in Hall. rewrite <- Hall. clear.
    induction ps; simpl; auto. }
  exists params.
  destruct (Ascii.eqb_spec r "v") as [->|Hne].
  - exists None. cbn [String.eqb Ascii.eqb Bool.eqb]. cbn.
    split; [|auto]. unfold spec_type_section_body. rewrite Hn.
    rewrite !map_app, <- !app_assoc. reflexivity.
  - simpl in Hr. destruct (is_tag_typeCodes cfg r Hr) as (t & Ht & Hw).
    exists (Some t).
    assert (Hs : String.eqb (String r EmptyString) "v" = false).
    { apply String.eqb_neq. congruence. }
    rewrite Hs. cbn [String.get lookup_key]. rewrite Ht.
    split; [|auto]. unfold spec_type_section_body. rewrite Hn.
    rewrite !map_app, <- !app_assoc. reflexivity.
Qed.

(** The bytes the code builds around that body; the length prefix is
    whatever [uleb128Encode] makes of the body's length. *)
Lemma convertJsFunctionToWasm_bytes_valid cfg r ps :
  (Ascii.eqb r "v" || is_tag r) = true ->
  forallb is_tag (list_ascii_of_string ps) = true ->
  Z.of_nat (String.length ps) < 16384 ->
  exists params result,
    Forall2 (wire_type cfg) (list_ascii_of_string ps) params /\
    match result with
    | None => r = "v"%char
    | Some t => wire_type cfg r t
    end /\
    convertJsFunctionToWasm_bytes cfg (String r ps)
    = rbind
        (uleb128Encode cfg
           (Z.of_nat (length (spec_type_section_body params result)))
           (map JNum ([0x00; 0x61; 0x73; 0x6D] ++ [0x01; 0x00; 0x00; 0x00] ++ [0x01])))
        (fun bytes =>
           Ok ((bytes ++ map JNum (spec_type_section_body params result)) ++
               map JNum ([0x02; 0x07; 0x01; 0x01; 0x65; 0x01; 0x66; 0x00; 0x00] ++
                         [0x07; 0x05; 0x01; 0x01; 0x66; 0x00; 0x00]))).
Proof.
  intros Hr Hps Hlen.
  destruct (typeSectionBody_of_valid cfg r ps Hr Hps Hlen)
    as (params & result & Hbody & Hall & Hres).
  exists params, result. split; [exact Hall|]. split; [exact Hres|].
  unfold convertJsFunctionToWasm_bytes. rewrite Hbody. cbn [rbind].
  rewrite length_map. reflexivity.
Qed.

(** C6, as the code has it: on the fallback path, for every valid
    signature whose type-section body is shorter than 2^14 bytes (at
    most 16377 parameters, or 16378 with a void result), the bytes
    handed to [WebAssembly.Module] are exactly the magic, the version,
    section code 01, the LEB128 length of the body, the body (count 01,
    form 60, LEB128 parameter count, one type code per parameter, then
    00 or 01 and the result's type code), the fixed import section and
    the fixed export section; the function returned is the export of
    the instance of the module of these bytes, a [CompileError] when
    the host does not compile them. *)
Theorem convertJsFunctionToWasm_module_bytes (cfg : Settings) (sig : string)
    (Hvalid : valid_sig sig = true)
    (Hlen : Z.of_nat (String.length sig)
            <= if is_char "v" (String.get 0 sig) then 16379 else 16378) :
  exists bytes params result,
    convertJsFunctionToWasm_bytes cfg sig = Ok bytes /\
    Forall2 (wire_type cfg) (list_ascii_of_string (sigParam_of sig)) params /\
    match result with
    | None => String.get 0 sig = Some "v"%char
    | Some t => exists r, String.get 0 sig = Some r /\ wire_type cfg r t
    end /\
    Uint8Array bytes = spec_module_bytes params result /\
    forall host func st,
      WASM2JS cfg = false -> WebAssembly_Function host = None ->
      convertJsFunctionToWasm cfg host func (Some sig) st
      = if WebAssembly_Module host (spec_module_bytes params result)
        then instance_export host (spec_module_bytes params result) func st
        else (Throw CompileError, st).
Proof.
  destruct sig as [|r ps]; [discriminate Hvalid|].
  simpl in Hvalid. apply andb_true_iff in Hvalid as [Hr Hps].
  cbn [String.get String.length is_char] in Hlen.
  assert (Hn : Z.of_nat (String.length ps) < 16384)
    by (destruct (Ascii.eqb r "v"); lia).
  destruct (convertJsFunctionToWasm_bytes_valid cfg r ps Hr Hps Hn)
    as (params & result & Hall & Hres & Hbytes).
  assert (Hlenp : String.length ps = length params).
  { apply Forall2_length in Hall. rewrite <- Hall. clear.
    induction ps; simpl; auto. }
  assert (Hbody : 0 <= Z.of_nat (length (spec_type_section_body params result)) < 2 ^ 14).
  { apply spec_type_section_body_length. rewrite <- Hlenp.
    destruct result as [t|]; simpl.
    - destruct (Ascii.eqb_spec r "v") as [->|_]; [inversion Hres | lia].
    - subst r. simpl in Hlen. lia. }
  rewrite uleb128Encode_small in Hbytes by exact Hbody. cbn [rbind] in Hbytes.
  rewrite <- !map_app in Hbytes.
  eexists _, params, result.
  split; [exact Hbytes|]. rewrite sigParam_of_cons.
  split; [exact Hall|]. split.
  { destruct result as [t|]; cbn [String.get]; [eauto | congruence]. }
  assert (Hu : Uint8Array
            (map JNum
               (((([0x00; 0x61; 0x73; 0x6D] ++ [0x01; 0x00; 0x00; 0x00] ++ [0x01]) ++
                  uleb128 (Z.of_nat (length (spec_type_section_body params result)))) ++
                 spec_type_section_body params result) ++
                [0x02; 0x07; 0x01; 0x01; 0x65; 0x01; 0x66; 0x00; 0x00] ++
                [0x07; 0x05; 0x01; 0x01; 0x66; 0x00; 0x00]))
          = spec_module_bytes params result).
  { replace (((([0x00; 0x61; 0x73; 0x6D] ++ [0x01; 0x00; 0x00; 0x00] ++ [0x01]) ++
                  uleb128 (Z.of_nat (length (spec_type_section_body params result)))) ++
                 spec_type_section_body params result) ++
                [0x02; 0x07; 0x01; 0x01; 0x65; 0x01; 0x66; 0x00; 0x00] ++
                [0x07; 0x05; 0x01; 0x01; 0x66; 0x00; 0x00])
      with (spec_module_bytes params result)
      by (unfold spec_module_bytes; rewrite <- !app_assoc; reflexivity).
    apply Uint8Array_bytes, spec_module_bytes_range. }
  split; [exact Hu|].
  intros host func st Hw Hf. unfold convertJsFunctionToWasm.
  rewrite Hw, Hf. unfold bind, lift. rewrite Hbytes, Hu.
  destruct (WebAssembly_Module host (spec_module_bytes params result)); reflexivity.
Qed.

Lemma convertJsFunctionToWasm_module_bytes_witness :
  valid_sig "vii" = true /\
  exists bytes,
    convertJsFunctionToWasm_bytes
      {| ASSERTIONS := 1; MEMORY64 := false; WASM2JS := false |} "vii" = Ok bytes /\
    Uint8Array bytes
    = [0x00; 0x61; 0x73; 0x6D; 0x01; 0x00; 0x00; 0x00;
       0x01; 0x06; 0x01; 0x60; 0x02; 0x7F; 0x7F; 0x00;
       0x02; 0x07; 0x01; 0x01; 0x65; 0x01; 0x66; 0x00; 0x00;
       0x07; 0x05; 0x01; 0x01; 0x66; 0x00; 0x00].
Proof.
  split; [reflexivity|].
  destruct (convertJsFunctionToWasm_module_bytes
    {| ASSERTIONS := 1; MEMORY64 := false; WASM2JS := false |} "vii"
    eq_refl ltac:(simpl; lia))
    as (bytes & params & result & Hbytes & _ & _ & Hu & _).
  exists bytes. split; [exact Hbytes|].
  vm_compute in Hbytes. injection Hbytes as <-. reflexivity.
Defined.

Lemma wire_type_i_params cfg n : forall params,
  Forall2 (wire_type cfg) (replicate n "i"%char) params -> params = replicate n i32.
Proof.
  induction n as [|n IH]; intros params Hall; simpl in Hall.
  - inversion Hall. reflexivity.
  - inversion Hall as [|c t cs ts Hw Hrest]; subst.
    inversion Hw; subst. simpl. f_equal. apply IH. exact Hrest.
Qed.

(** C6 as stated fails on long signatures: for the valid signature of
    16378 [i] parameters and result [i], the body is 2^14 bytes long
    and the code writes the two bytes 80 80 as its length (LEB128 is
    80 80 01), so the module is one byte short of the stated layout;
    with [ASSERTIONS] no bytes are produced at all. *)
Lemma convertJsFunctionToWasm_long_signature_counterexample :
  valid_sig long_signature = true /\
  (exists bytes,
     convertJsFunctionToWasm_bytes
       {| ASSERTIONS := 0; MEMORY64 := false; WASM2JS := false |} long_signature
     = Ok bytes /\
     firstn 13 (Uint8Array bytes)
     = [0x00; 0x61; 0x73; 0x6D; 0x01; 0x00; 0x00; 0x00; 0x01; 0x80; 0x80; 0x01; 0x60] /\
     firstn 13 (spec_module_bytes (replicate (Z.to_nat 16378) i32) (Some i32))
     = [0x00; 0x61; 0x73; 0x6D; 0x01; 0x00; 0x00; 0x00; 0x01; 0x80; 0x80; 0x01; 0x01] /\
     Uint8Array bytes
     <> spec_module_bytes (replicate (Z.to_nat 16378) i32) (Some i32)) /\
  convertJsFunctionToWasm_bytes
    {| ASSERTIONS := 1; MEMORY64 := false; WASM2JS := false |} long_signature
  = Throw (AssertionFailed None).
Proof.
  assert (Hps : forallb is_tag
                  (list_ascii_of_string
                     (string_of_list_ascii (replicate (Z.to_nat 16378) "i"%char))) = true)
    by (vm_compute; reflexivity).
  assert (Hlen : Z.of_nat (String.length
                   (string_of_list_ascii (replicate (Z.to_nat 16378) "i"%char))) < 16384)
    by (vm_compute; reflexivity).
  assert (Hbody : Z.of_nat (length (spec_type_section_body
                    (replicate (Z.to_nat 16378) i32) (Some i32))) = 16384)
    by (vm_compute; reflexivity).
  assert (Hcode : forall cfg,
    convertJsFunctionToWasm_bytes cfg long_signature
    = rbind
        (uleb128Encode cfg 16384
           (map JNum ([0x00; 0x61; 0x73; 0x6D] ++ [0x01; 0x00; 0x00; 0x00] ++ [0x01])))
        (fun bytes =>
           Ok ((bytes ++ map JNum (spec_type_section_body
                                     (replicate (Z.to_nat 16378) i32) (Some i32))) ++
               map JNum ([0x02; 0x07; 0x01; 0x01; 0x65; 0x01; 0x66; 0x00; 0x00] ++
                         [0x07; 0x05; 0x01; 0x01; 0x66; 0x00; 0x00])))).
  { intros cfg.
    destruct (convertJsFunctionToWasm_bytes_valid cfg "i" _ eq_refl Hps Hlen)
      as (params & result & Hall & Hres & Hbytes).
    rewrite list_ascii_of_string_of_list_ascii in Hall.
    apply wire_type_i_params in Hall. subst params.
    destruct result as [t|]; [|discriminate Hres].
    inversion Hres; subst t.
    rewrite Hbody in Hbytes. exact Hbytes. }
  split; [vm_compute; reflexivity|]. split.
  - eexists. split; [rewrite Hcode; reflexivity|].
    split; [vm_compute; reflexivity|].
    split; [vm_compute; reflexivity|].
    intros Heq. apply (f_equal (firstn 13)) in Heq.
    vm_compute in Heq. discriminate Heq.
  - rewrite Hcode. reflexivity.
Qed.

(** ** Stateful computations *)

Section Monad.

Context {A B : Type}.

Lemma bind_inv (m : M A) (k : A -> M B) st r st' :
  bind m k st = (r, st') ->
  (exists a s1, m st = (Ok a, s1) /\ k a s1 = (r, st')) \/
  (exists e, m st = (Throw e, st') /\ r = Throw e).
Proof.
  unfold bind. destruct (m st) as [[a|e] s1]; intros H.
  - left. eauto.
  - right. inversion H; subst. eauto.
Qed.

Lemma bind_ok (m : M A) (k : A -> M B) st a s1 :
  m st = (Ok a, s1) -> bind m k st = k a s1.
Proof. intros H. unfold bind. now rewrite H. Qed.

Lemma bind_throw (m : M A) (k : A -> M B) st e s1 :
  m st = (Throw e, s1) -> bind m k st = (Throw e, s1).
Proof. intros H. unfold bind. now rewrite H. Qed.

End Monad.

Lemma array_pop_nil {A} (a : list A) : array_pop a = None <-> a = [].
Proof.
  unfold array_pop. split.
  - destruct (rev a) eqn:Hr; [|discriminate]. intros _.
    apply (f_equal (@rev A)) in Hr. now rewrite rev_involutive in Hr.
  - intros ->. reflexivity.
Qed.

Lemma array_pop_push {A} (a : list A) x : array_pop (array_push a x) = Some (x, a).
Proof.
  unfold array_pop, array_push. rewrite rev_app_distr. simpl.
  now rewrite rev_involutive.
Qed.

(** *** The first-use scan *)

Lemma getWasmTableEntry_run i st entry :
  wasmTable st !! i = Some entry -> getWasmTableEntry i st = (Ok entry, st).
Proof. intros H. unfold getWasmTableEntry, wasmTable_get. now rewrite H. Qed.

Lemma map_set_run f i st m :
  functionsInTableMap st = Some m ->
  map_set f i st = (Ok tt, set_functionsInTableMap (Some (<[f := i]> m)) st).
Proof.
  intros H. unfold map_set, the_map, bind, gets, modify, ret. cbn beta iota.
  now rewrite H.
Qed.

Lemma for_each_S start count body :
  for_each start (S count) body = (body start ;; for_each (S start) count body).
Proof. reflexivity. Qed.

Lemma updateTableMap_run count : forall offset st m,
  functionsInTableMap st = Some m ->
  (offset + count <= length (wasmTable st))%nat ->
  updateTableMap offset count st
  = (Ok tt,
     set_functionsInTableMap
       (Some (scan_table offset (take count (drop offset (wasmTable st))) m)) st).
Proof.
  unfold updateTableMap.
  induction count as [|count IH]; intros offset st m Hm Hlen.
  - rewrite take_0. cbn [for_each scan_table].
    unfold ret, set_functionsInTableMap. rewrite <- Hm.
    destruct st; reflexivity.
  - destruct (lookup_lt_is_Some_2 (wasmTable st) offset ltac:(lia)) as [entry Hentry].
    rewrite (drop_S _ _ _ Hentry), firstn_cons, for_each_S.
    destruct entry as [f|]; cbn [scan_table].
    + erewrite bind_ok; cycle 1.
      { erewrite bind_ok by (apply getWasmTableEntry_run; exact Hentry).
        apply map_set_run. exact Hm. }
      rewrite (IH (S offset) _ (<[f := offset]> m)); [reflexivity | reflexivity |].
      simpl. lia.
    + erewrite bind_ok; cycle 1.
      { erewrite bind_ok by (apply getWasmTableEntry_run; exact Hentry).
        reflexivity. }
      rewrite (IH (S offset) st m Hm); [reflexivity | lia].
Qed.

Lemma registry_initialized st :
  functionsInTableMap (initialized st) = Some (registry st).
Proof.
  unfold initialized, registry.
  destruct (functionsInTableMap st) eqn:Hm; [exact Hm | reflexivity].
Qed.

Lemma initialized_frame st :
  wasmTable (initialized st) = wasmTable st /\
  wasmTable_maximum (initialized st) = wasmTable_maximum st /\
  freeTableIndexes (initialized st) = freeTableIndexes st /\
  instances (initialized st) = instances st.
Proof.
  unfold initialized. destruct (functionsInTableMap st); auto.
Qed.

Lemma initialized_idem st : functionsInTableMap st <> None -> initialized st = st.
Proof.
  unfold initialized. destruct (functionsInTableMap st); [reflexivity | congruence].
Qed.

(** The first statement of [addFunction]: create the map if this is
    the first use. *)
Lemma first_use_run st :
  match functionsInTableMap st with
  | None =>
      modify (set_functionsInTableMap (Some ∅)) ;;
      let* table := gets wasmTable in
      updateTableMap 0 (length table)
  | Some _ => ret tt
  end st = (Ok tt, initialized st).
Proof.
  unfold initialized.
  destruct (functionsInTableMap st) as [m|] eqn:Hm; [reflexivity|].
  unfold bind, modify, gets.
  rewrite (updateTableMap_run _ 0 _ ∅); [|reflexivity|simpl; lia].
  simpl. rewrite drop_0, firstn_all. reflexivity.
Qed.

(** *** The primitives, case by case *)

Lemma try_catch_ok {A} (m : M A) handler st a s1 :
  m st = (Ok a, s1) -> try_catch m handler st = (Ok a, s1).
Proof. intros H. unfold try_catch. now rewrite H. Qed.

Lemma try_catch_throw {A} (m : M A) handler st e s1 :
  m st = (Throw e, s1) -> try_catch m handler st = handler e s1.
Proof. intros H. unfold try_catch. now rewrite H. Qed.

Lemma the_map_run st m :
  functionsInTableMap st = Some m -> the_map st = (Ok m, st).
Proof.
  intros H. unfold the_map, bind, gets, ret. cbn beta iota. now rewrite H.
Qed.

Lemma assert_cases cfg cond text (st : State) :
  (cond = true \/ ASSERTIONS cfg = O) /\ lift (assert cfg cond text) st = (Ok tt, st) \/
  cond = false /\ (0 < ASSERTIONS cfg)%nat /\
  lift (assert cfg cond text) st = (Throw (AssertionFailed text), st).
Proof.
  unfold lift, assert.
  destruct (ASSERTIONS cfg) as [|n]; cbn [Nat.ltb Nat.leb]; [left; auto|].
  destruct cond; [left; auto | right; repeat split; auto; lia].
Qed.

Lemma getEmptyTableSlot_cases st :
  (exists k rest,
     array_pop (freeTableIndexes st) = Some (k, rest) /\
     getEmptyTableSlot st = (Ok k, set_freeTableIndexes rest st)) \/
  (freeTableIndexes st = [] /\ growable st = true /\
   getEmptyTableSlot st
   = (Ok (length (wasmTable st)), set_wasmTable (wasmTable st ++ [None]) st)) \/
  (freeTableIndexes st = [] /\ growable st = false /\
   getEmptyTableSlot st
   = (Throw (ThrownString "Unable to grow wasm table. Set ALLOW_TABLE_GROWTH."), st)).
Proof.
  assert (Hlen : forall t : list (option callable),
             (length (t ++ [None]) - 1)%nat = length t).
  { intros t. rewrite length_app. simpl. lia. }
  unfold getEmptyTableSlot, bind, try_catch, wasmTable_grow, growable, gets,
    modify, ret, throw.
  cbn beta iota. cbn [replicate].
  destruct (array_pop (freeTableIndexes st)) as [[k rest]|] eqn:Hpop.
  - left. exists k, rest. split; reflexivity.
  - right. apply array_pop_nil in Hpop.
    destruct (wasmTable_maximum st) as [max|].
    + destruct (length (wasmTable st) + 1 <=? max)%nat.
      * left. repeat split; auto. fields. now rewrite Hlen.
      * right. auto.
    + left. repeat split; auto. fields. now rewrite Hlen.
Qed.

Lemma setWasmTableEntry_cases i g st :
  (table_accepts g = true /\ (i < length (wasmTable st))%nat /\
   setWasmTableEntry i g st
   = (Ok tt, set_wasmTable (<[i := Some g]> (wasmTable st)) st)) \/
  (table_accepts g = false /\ setWasmTableEntry i g st = (Throw TypeError, st)) \/
  (table_accepts g = true /\ (length (wasmTable st) <= i)%nat /\
   setWasmTableEntry i g st = (Throw RangeError, st)).
Proof.
  unfold setWasmTableEntry, wasmTable_set.
  destruct (table_accepts g); cbn [negb]; [|right; left; auto].
  destruct (Nat.ltb_spec i (length (wasmTable st))); [left | right; right]; auto.
Qed.

Lemma instance_export_cases host bytes f st :
  (table_accepts f = true /\ instance_export host bytes f st = (Ok f, st)) \/
  (table_accepts f = false /\ instance_export host bytes f st = new_wrapper st) \/
  (table_accepts f = true /\ instance_export host bytes f st = (Throw LinkError, st)).
Proof.
  unfold instance_export.
  destruct f; cbn [table_accepts]; [| right; left; auto |];
    (destruct (WebAssembly_Instance host bytes _); [left | right; right]; auto).
Qed.

Lemma convertJsFunctionToWasm_cases cfg host f sig st :
  (convertJsFunctionToWasm cfg host f sig st = (Ok f, st)) \/
  (WASM2JS cfg = false /\ convertJsFunctionToWasm cfg host f sig st = new_wrapper st) \/
  (exists e, convertJsFunctionToWasm cfg host f sig st = (Throw e, st)).
Proof.
  unfold convertJsFunctionToWasm.
  destruct (WASM2JS cfg); [left; auto |].
  destruct (WebAssembly_Function host) as [construct|], sig as [sig|];
    try (right; right; eexists; reflexivity); unfold bind, lift.
  - destruct (sigToWasmTypes cfg sig) as [type|e]; [|right; right; eauto].
    destruct (construct type); [right; left; auto | right; right; eexists; reflexivity].
  - destruct (convertJsFunctionToWasm_bytes cfg sig) as [bytes|e]; [|right; right; eauto].
    destruct (WebAssembly_Module host (Uint8Array bytes));
      [| right; right; eexists; reflexivity].
    destruct (instance_export_cases host (Uint8Array bytes) f st)
      as [[_ ->]|[[_ ->]| [_ ->]]]; [left | right; left | right; right; eexists]; auto.
Qed.

(** The level-2 assertion loop reads the table and writes nothing. *)
Lemma table_check_frame cfg func count : forall start st,
  exists r,
    for_each start count (fun i =>
      let* entry := getWasmTableEntry i in
      lift (assert cfg (negb (bool_decide (entry = Some func)))
              (Some "function in Table but not functionsInTableMap"))) st
    = (r, st).
Proof.
  induction count as [|count IH]; intros start st; [eexists; reflexivity|].
  rewrite for_each_S. unfold bind at 1. unfold bind at 1.
  unfold getWasmTableEntry, wasmTable_get.
  destruct (wasmTable st !! start) as [entry|]; [|eexists; reflexivity].
  destruct (assert_cases cfg (negb (bool_decide (entry = Some func)))
              (Some "function in Table but not functionsInTableMap") st)
    as [[_ ->]|(_ & _ & ->)]; [apply IH | eexists; reflexivity].
Qed.

Lemma table_check_passes cfg func count : forall start st,
  (start + count <= length (wasmTable st))%nat ->
  Some func ∉ wasmTable st ->
  for_each start count (fun i =>
    let* entry := getWasmTableEntry i in
    lift (assert cfg (negb (bool_decide (entry = Some func)))
            (Some "function in Table but not functionsInTableMap"))) st
  = (Ok tt, st).
Proof.
  induction count as [|count IH]; intros start st Hlen Hnot; [reflexivity|].
  rewrite for_each_S.
  destruct (lookup_lt_is_Some_2 (wasmTable st) start ltac:(lia)) as [entry Hentry].
  erewrite bind_ok; cycle 1.
  { erewrite bind_ok by (apply getWasmTableEntry_run; exact Hentry).
    destruct (assert_cases cfg (negb (bool_decide (entry = Some func)))
                (Some "function in Table but not functionsInTableMap") st)
      as [[_ H]|(Hc & _ & _)]; [exact H|].
    apply negb_false_iff, bool_decide_eq_true in Hc. subst entry.
    exfalso. apply Hnot. apply list_elem_of_lookup. eauto. }
  apply IH; [lia | exact Hnot].
Qed.

(** ** addFunction, outcome by outcome *)

Lemma addFunction_registered cfg host f sig st k :
  registry st !! f = Some k ->
  addFunction cfg host f sig st = (Ok k, initialized st).
Proof.
  intros Hk. unfold addFunction.
  unfold bind at 1, gets at 1. cbn beta iota.
  erewrite bind_ok by apply first_use_run.
  erewrite bind_ok by apply the_map_run, registry_initialized.
  rewrite Hk. reflexivity.
Qed.

Lemma addFunction_unseen cfg host f sig st :
  registry st !! f = None ->
  addFunction cfg host f sig st
  = ((if (2 <=? ASSERTIONS cfg)%nat then
        let* table := gets wasmTable in
        for_each 0 (length table) (fun i =>
          let* entry := getWasmTableEntry i in
          lift (assert cfg (negb (bool_decide (entry = Some f)))
                  (Some "function in Table but not functionsInTableMap")))
      else ret tt) ;;
     let* index := getEmptyTableSlot in
     try_catch (setWasmTableEntry index f)
       (fun err =>
          match err with
          | TypeError =>
              lift (assert cfg (bool_decide (sig <> None))
                      (Some ("Missing signature argument to addFunction: "
                               +:+ show_callable host f))) ;;
              let* wrapped := convertJsFunctionToWasm cfg host f sig in
              setWasmTableEntry index wrapped
          | _ => throw err
          end) ;;
     map_set f index ;;
     ret index) (initialized st).
Proof.
  intros Hk. unfold addFunction.
  unfold bind at 1, gets at 1. cbn beta iota.
  erewrite bind_ok by apply first_use_run.
  erewrite bind_ok by apply the_map_run, registry_initialized.
  rewrite Hk. reflexivity.
Qed.

(** The level-2 check of [addFunction] writes nothing. *)
Lemma addFunction_check_frame cfg f st :
  exists r,
    (if (2 <=? ASSERTIONS cfg)%nat then
       let* table := gets wasmTable in
       for_each 0 (length table) (fun i =>
         let* entry := getWasmTableEntry i in
         lift (assert cfg (negb (bool_decide (entry = Some f)))
                 (Some "function in Table but not functionsInTableMap")))
     else ret tt) st = (r, st).
Proof.
  destruct (2 <=? ASSERTIONS cfg)%nat; [|eexists; reflexivity].
  unfold bind at 1, gets at 1. apply table_check_frame.
Qed.

Lemma addFunction_check_passes cfg f st :
  ((2 <= ASSERTIONS cfg)%nat -> Some f ∉ wasmTable st) ->
  (if (2 <=? ASSERTIONS cfg)%nat then
     let* table := gets wasmTable in
     for_each 0 (length table) (fun i =>
       let* entry := getWasmTableEntry i in
       lift (assert cfg (negb (bool_decide (entry = Some f)))
               (Some "function in Table but not functionsInTableMap")))
   else ret tt) st = (Ok tt, st).
Proof.
  intros Hnot. destruct (Nat.leb_spec 2 (ASSERTIONS cfg)); [|reflexivity].
  unfold bind at 1, gets at 1. apply table_check_passes; [simpl; lia | auto].
Qed.

Lemma getEmptyTableSlot_inv st r st' :
  getEmptyTableSlot st = (r, st') ->
  match r with
  | Ok k => acquired st k st'
  | Throw e =>
      e = ThrownString "Unable to grow wasm table. Set ALLOW_TABLE_GROWTH." /\
      freeTableIndexes st = [] /\ growable st = false /\ st' = st
  end.
Proof.
  destruct (getEmptyTableSlot_cases st)
    as [(k & rest & Hpop & ->)|[(Hfree & Hgrow & ->)|(Hfree & Hgrow & ->)]];
    intros H; inversion H; subst; clear H; unfold acquired; fields; auto 10.
Qed.

Lemma map_set_inv f i st r st' m :
  functionsInTableMap st = Some m ->
  map_set f i st = (r, st') ->
  r = Ok tt /\ st' = set_functionsInTableMap (Some (<[f := i]> m)) st.
Proof.
  intros Hm H. rewrite (map_set_run _ _ _ _ Hm) in H. inversion H; auto.
Qed.

Lemma setWasmTableEntry_inv i g st r st' :
  setWasmTableEntry i g st = (r, st') ->
  match r with
  | Ok _ =>
      table_accepts g = true /\ (i < length (wasmTable st))%nat /\
      st' = set_wasmTable (<[i := Some g]> (wasmTable st)) st
  | Throw e =>
      st' = st /\ (e = TypeError <-> table_accepts g = false)
  end.
Proof.
  destruct (setWasmTableEntry_cases i g st)
    as [(Hacc & Hlt & ->)|[(Hacc & ->)|(Hacc & Hge & ->)]];
    intros H; inversion H; subst; clear H; auto.
  - split; [reflexivity|]. split; auto.
  - split; [reflexivity|]. split; [discriminate | congruence].
Qed.

Lemma convertJsFunctionToWasm_inv cfg host f sig st r st' :
  convertJsFunctionToWasm cfg host f sig st = (r, st') ->
  wasmTable st' = wasmTable st /\
  wasmTable_maximum st' = wasmTable_maximum st /\
  freeTableIndexes st' = freeTableIndexes st /\
  functionsInTableMap st' = functionsInTableMap st /\
  match r with
  | Ok g => g = f /\ st' = st \/ g = Wrapper (instances st)
  | Throw _ => st' = st
  end.
Proof.
  destruct (convertJsFunctionToWasm_cases cfg host f sig st)
    as [->|[(_ & ->)|(e & ->)]];
    intros H; inversion H; subst; clear H; fields; auto 10.
Qed.

Lemma assert_inv cfg cond text (st : State) r st' :
  lift (assert cfg cond text) st = (r, st') -> st' = st.
Proof.
  destruct (assert_cases cfg cond text st) as [[_ ->]|(_ & _ & ->)];
    intros H; inversion H; auto.
Qed.

(** Placing the callable in the acquired slot, directly or through a
    trampoline. *)
Lemma place_inv cfg host f sig k s2 r s3 :
  try_catch (setWasmTableEntry k f)
    (fun err =>
       match err with
       | TypeError =>
           lift (assert cfg (bool_decide (sig <> None))
                   (Some ("Missing signature argument to addFunction: "
                            +:+ show_callable host f))) ;;
           let* wrapped := convertJsFunctionToWasm cfg host f sig in
           setWasmTableEntry k wrapped
       | _ => throw err
       end) s2 = (r, s3) ->
  wasmTable_maximum s3 = wasmTable_maximum s2 /\
  freeTableIndexes s3 = freeTableIndexes s2 /\
  functionsInTableMap s3 = functionsInTableMap s2 /\
  match r with
  | Ok _ =>
      exists g,
        (k < length (wasmTable s2))%nat /\
        table_accepts g = true /\
        (g = f \/ table_accepts f = false /\ g = Wrapper (instances s2)) /\
        wasmTable s3 = <[k := Some g]> (wasmTable s2)
  | Throw _ => wasmTable s3 = wasmTable s2
  end.
Proof.
  unfold try_catch.
  destruct (setWasmTableEntry k f s2) as [[[]|e] s4] eqn:Hset.
  - intros H. inversion H; subst. clear H.
    apply setWasmTableEntry_inv in Hset as (Hacc & Hlt & ->). fields.
    repeat split; auto. exists f. auto.
  - apply setWasmTableEntry_inv in Hset as [-> Hty].
    destruct e; unfold throw;
      try solve [intros H; inversion H; subst; auto].
    intros H.
    apply bind_inv in H as [([] & s5 & Hassert & H1)|(e & Hassert & ->)];
      apply assert_inv in Hassert; subst; auto.
    apply bind_inv in H1 as [(g & s6 & Hconv & H2)|(e & Hconv & ->)];
      apply convertJsFunctionToWasm_inv in Hconv
        as (Ht6 & Hmax6 & Hfree6 & Hmap6 & Hg); auto.
    destruct r as [[]|e].
    + apply setWasmTableEntry_inv in H2 as (Hacc & Hlt & ->). fields.
      rewrite Ht6 in *. repeat split; auto. exists g. repeat split; auto.
      destruct Hg as [[-> _] | ->]; [left; reflexivity|].
      right. split; [apply Hty|]; reflexivity.
    + apply setWasmTableEntry_inv in H2 as [-> _]. auto.
Qed.

(** Every outcome of a registration request for a callable the
    registry does not hold. *)
Lemma addFunction_unseen_inv cfg host f sig st r st' :
  registry st !! f = None ->
  addFunction cfg host f sig st = (r, st') ->
  wasmTable_maximum st' = wasmTable_maximum st /\
  match r with
  | Ok k =>
      exists s2 g,
        acquired (initialized st) k s2 /\
        (k < length (wasmTable s2))%nat /\
        table_accepts g = true /\
        (g = f \/ table_accepts f = false /\ g = Wrapper (instances st)) /\
        wasmTable st' = <[k := Some g]> (wasmTable s2) /\
        freeTableIndexes st' = freeTableIndexes s2 /\
        functionsInTableMap st' = Some (<[f := k]> (registry st))
  | Throw e =>
      exists s2,
        (s2 = initialized st \/ exists k, acquired (initialized st) k s2) /\
        wasmTable st' = wasmTable s2 /\
        freeTableIndexes st' = freeTableIndexes s2 /\
        functionsInTableMap st' = Some (registry st)
  end.
Proof.
  intros Hk H. rewrite addFunction_unseen in H by exact Hk.
  pose proof (registry_initialized st) as Hreg.
  destruct (initialized_frame st) as (Ht & Hmax & Hfree & Hinst).
  set (s := initialized st) in *.
  destruct (addFunction_check_frame cfg f s) as [rc Hrc].
  apply bind_inv in H as [([] & s1 & Hcheck & H1)|(e & Hcheck & ->)];
    rewrite Hrc in Hcheck; inversion Hcheck; subst; clear Hcheck.
  2: { split; [auto|]. exists s. auto. }
  apply bind_inv in H1 as [(k & s2 & Hslot & H2)|(e & Hslot & ->)];
    apply getEmptyTableSlot_inv in Hslot.
  2: { destruct Hslot as (_ & _ & _ & ->). split; [auto|]. exists s. auto. }
  assert (Hacq := Hslot). destruct Hslot as (Hmax2 & Hmap2 & Hinst2 & _).
  apply bind_inv in H2 as [([] & s3 & Hplace & H3)|(e & Hplace & ->)];
    apply place_inv in Hplace as (Hmax3 & Hfree3 & Hmap3 & Hplace).
  2: { split; [congruence|]. exists s2. repeat split; eauto; congruence. }
  destruct Hplace as (g & Hlt & Hacc & Hg & Ht3).
  assert (Hm3 : functionsInTableMap s3 = Some (registry st)) by congruence.
  apply bind_inv in H3 as [([] & s4 & Hset & H4)|(e & Hset & ->)];
    apply (map_set_inv _ _ _ _ _ _ Hm3) in Hset as [Hr Hs4];
    try discriminate Hr.
  unfold ret in H4. inversion H4; subst. clear H4. fields.
  split; [congruence|]. exists s2, g. rewrite <- Hinst, <- Hinst2.
  split; [exact Hacq|]. repeat split; auto.
Qed.

(** *** Requests that succeed *)

Lemma convertJsFunctionToWasm_run cfg host f sig st :
  table_accepts f = false ->
  WASM2JS cfg = false -> converts cfg host sig = true ->
  convertJsFunctionToWasm cfg host f (Some sig) st = new_wrapper st.
Proof.
  intros Hf Hw Hc. unfold convertJsFunctionToWasm, converts in *. rewrite Hw.
  destruct (WebAssembly_Function host) as [construct|]; unfold bind, lift.
  - destruct (sigToWasmTypes cfg sig) as [type|e]; [|discriminate Hc].
    now rewrite Hc.
  - destruct (convertJsFunctionToWasm_bytes cfg sig) as [bytes|e]; [|discriminate Hc].
    rewrite Hc. destruct f; [discriminate Hf | reflexivity | discriminate Hf].
Qed.

Lemma place_ok cfg host f sig k s2 :
  registrable cfg host f sig = true ->
  (k < length (wasmTable s2))%nat ->
  exists g s3,
    try_catch (setWasmTableEntry k f)
      (fun err =>
         match err with
         | TypeError =>
             lift (assert cfg (bool_decide (sig <> None))
                     (Some ("Missing signature argument to addFunction: "
                              +:+ show_callable host f))) ;;
             let* wrapped := convertJsFunctionToWasm cfg host f sig in
             setWasmTableEntry k wrapped
         | _ => throw err
         end) s2 = (Ok tt, s3) /\
    (g = f \/ g = Wrapper (instances s2)) /\
    wasmTable s3 = <[k := Some g]> (wasmTable s2) /\
    wasmTable_maximum s3 = wasmTable_maximum s2 /\
    freeTableIndexes s3 = freeTableIndexes s2 /\
    functionsInTableMap s3 = functionsInTableMap s2 /\
    (instances s2 <= instances s3)%nat.
Proof.
  intros Hreg Hlt. unfold registrable in Hreg.
  destruct (setWasmTableEntry_cases k f s2)
    as [(Hacc & _ & Hset)|[(Hacc & Hset)|(_ & Hge & _)]]; [| |lia].
  - exists f, (set_wasmTable (<[k := Some f]> (wasmTable s2)) s2).
    rewrite (try_catch_ok _ _ _ _ _ Hset). fields. auto 10.
  - rewrite Hacc in Hreg. cbn [orb] in Hreg.
    apply andb_true_iff in Hreg as [Hw Hsig]. apply negb_true_iff in Hw.
    destruct sig as [sig|]; [|discriminate Hsig].
    rewrite (try_catch_throw _ _ _ _ _ Hset).
    destruct (assert_cases cfg (bool_decide (Some sig <> None))
                (Some ("Missing signature argument to addFunction: "
                         +:+ show_callable host f)) s2)
      as [[_ Hassert]|(Hfalse & _ & _)].
    2: { apply bool_decide_eq_false in Hfalse. exfalso. apply Hfalse. discriminate. }
    erewrite bind_ok by exact Hassert.
    erewrite bind_ok by (rewrite convertJsFunctionToWasm_run by assumption; reflexivity).
    destruct (setWasmTableEntry_cases k (Wrapper (instances s2))
                {| wasmTable := wasmTable s2;
                   wasmTable_maximum := wasmTable_maximum s2;
                   freeTableIndexes := freeTableIndexes s2;
                   functionsInTableMap := functionsInTableMap s2;
                   instances := S (instances s2) |})
      as [(_ & _ & Hset')|[(Hacc' & _)|(_ & Hge & _)]];
      [|discriminate Hacc'|fields; lia].
    rewrite Hset'. eexists _, _. split; [reflexivity|]. fields. auto 10.
Qed.

Lemma addFunction_unseen_ok cfg host f sig st k s2 :
  registry st !! f = None ->
  ((2 <= ASSERTIONS cfg)%nat -> Some f ∉ wasmTable st) ->
  registrable cfg host f sig = true ->
  getEmptyTableSlot (initialized st) = (Ok k, s2) ->
  (k < length (wasmTable s2))%nat ->
  exists g st',
    addFunction cfg host f sig st = (Ok k, st') /\
    (g = f \/ g = Wrapper (instances st)) /\
    wasmTable st' = <[k := Some g]> (wasmTable s2) /\
    wasmTable_maximum st' = wasmTable_maximum st /\
    freeTableIndexes st' = freeTableIndexes s2 /\
    functionsInTableMap st' = Some (<[f := k]> (registry st)) /\
    (instances st <= instances st')%nat.
Proof.
  intros Hk Hnot Hreg Hslot Hlt.
  rewrite addFunction_unseen by exact Hk.
  pose proof (registry_initialized st) as Hmap.
  destruct (initialized_frame st) as (Ht & Hmax & Hfree & Hinst).
  erewrite bind_ok by (apply addFunction_check_passes; rewrite Ht; exact Hnot).
  erewrite bind_ok by exact Hslot.
  apply getEmptyTableSlot_inv in Hslot as (Hmax2 & Hmap2 & Hinst2 & _).
  destruct (place_ok cfg host f sig k s2 Hreg Hlt)
    as (g & s3 & Hplace & Hg & Ht3 & Hmax3 & Hfree3 & Hmap3 & Hinst3).
  erewrite bind_ok by exact Hplace.
  assert (Hm3 : functionsInTableMap s3 = Some (registry st)) by congruence.
  erewrite bind_ok by (apply map_set_run; exact Hm3).
  eexists g, _. split; [reflexivity|]. fields.
  rewrite <- Hinst, <- Hinst2.
  repeat split; auto; try congruence; lia.
Qed.

Lemma removeFunction_run index st m entry :
  functionsInTableMap st = Some m ->
  wasmTable st !! index = Some entry ->
  removeFunction index st
  = (Ok tt,
     {| wasmTable := wasmTable st;
        wasmTable_maximum := wasmTable_maximum st;
        freeTableIndexes := array_push (freeTableIndexes st) index;
        functionsInTableMap :=
          Some (match entry with
                | Some g => delete g m
                | None => m
                end);
        instances := instances st |}).
Proof.
  intros Hm Hentry. unfold removeFunction.
  erewrite bind_ok by (apply the_map_run; exact Hm).
  erewrite bind_ok by (apply getWasmTableEntry_run; exact Hentry).
  unfold map_delete.
  destruct entry as [g|].
  - erewrite bind_ok; cycle 1.
    { erewrite bind_ok by (apply the_map_run; exact Hm). reflexivity. }
    reflexivity.
  - erewrite bind_ok; cycle 1.
    { erewrite bind_ok by (apply the_map_run; exact Hm). reflexivity. }
    unfold bind, gets, modify, set_freeTableIndexes. cbn beta iota.
    rewrite <- Hm. destruct st; reflexivity.
Qed.

Lemma registry_of_map st m : functionsInTableMap st = Some m -> registry st = m.
Proof. intros H. unfold registry. now rewrite H. Qed.

(** ** Registration is idempotent *)

(** C2: when [addFunction(f, s)] returns slot [k], a second call with
    no [removeFunction] in between (with the same or any other
    signature argument) returns [k] again and leaves the whole state,
    and so the table entry at [k], exactly as the first call left
    it. *)
Theorem addFunction_twice (cfg : Settings) (host : Host) (f : callable)
    (sig sig' : option string) (st st1 : State) (k : nat)
    (Hfirst : addFunction cfg host f sig st = (Ok k, st1)) :
  addFunction cfg host f sig' st1 = (Ok k, st1) /\
  addFunction cfg host f sig st1 = (Ok k, st1) /\
  forall st2, addFunction cfg host f sig st1 = (Ok k, st2) ->
              wasmTable st2 !! k = wasmTable st1 !! k.
Proof.
  assert (Hst1 : registry st1 !! f = Some k /\ initialized st1 = st1).
  { destruct (registry st !! f) as [k'|] eqn:Hk.
    - rewrite (addFunction_registered _ _ _ _ _ _ Hk) in Hfirst.
      inversion Hfirst; subst. clear Hfirst.
      pose proof (registry_initialized st) as Hmap.
      rewrite (registry_of_map _ _ Hmap). split; [exact Hk|].
      apply initialized_idem. congruence.
    - apply (addFunction_unseen_inv _ _ _ _ _ _ _ Hk) in Hfirst
        as (_ & s2 & g & _ & _ & _ & _ & _ & _ & Hmap).
      rewrite (registry_of_map _ _ Hmap). split; [apply lookup_insert_eq|].
      apply initialized_idem. congruence. }
  destruct Hst1 as [Hk Hinit].
  assert (Hany : forall s, addFunction cfg host f s st1 = (Ok k, st1)).
  { intros s. rewrite (addFunction_registered _ _ _ _ _ _ Hk), Hinit. reflexivity. }
  split; [apply Hany|]. split; [apply Hany|].
  intros st2 H2. rewrite Hany in H2. inversion H2; subst. reflexivity.
Qed.

Lemma addFunction_twice_witness :
  exists st1,
    addFunction release_build fallback_host (JsFunc 3) (Some "vi") empty_state
    = (Ok 0%nat, st1) /\
    addFunction release_build fallback_host (JsFunc 3) (Some "vi") st1
    = (Ok 0%nat, st1).
Proof.
  eexists. split; [vm_compute; reflexivity|].
  apply (addFunction_twice release_build fallback_host (JsFunc 3)
           (Some "vi") (Some "vi") empty_state).
  vm_compute. reflexivity.
Defined.

(** ** What a registration request changes in the table *)

(** C10: a call [addFunction(f, sig)] for a callable the registry
    holds returns its slot and changes no table entry; a call for a
    previously unseen callable that returns slot [k] leaves the entry
    at every index other than [k] as it was (the first-use scan only
    reads the table); and a call that throws leaves every existing
    entry as it was. *)
Theorem addFunction_table_frame (cfg : Settings) (host : Host) (f : callable)
    (sig : option string) (st st' : State) (r : result nat)
    (Hcall : addFunction cfg host f sig st = (r, st')) :
  (forall k, registry st !! f = Some k ->
             r = Ok k /\ wasmTable st' = wasmTable st) /\
  (forall k, registry st !! f = None -> r = Ok k ->
             forall i, i <> k -> wasmTable st' !! i = wasmTable st !! i) /\
  (forall e, r = Throw e ->
             forall i, (i < length (wasmTable st))%nat ->
                       wasmTable st' !! i = wasmTable st !! i).
Proof.
  destruct (initialized_frame st) as (Ht & _).
  assert (Hacq : forall k s2 i,
            acquired (initialized st) k s2 -> i <> k ->
            wasmTable s2 !! i = wasmTable st !! i).
  { intros k s2 i (_ & _ & _ & [[_ Hsame]|(_ & _ & _ & Hk & Hgrow)]) Hi.
    - congruence.
    - rewrite Hgrow, Ht. rewrite Ht in Hk.
      destruct (Nat.lt_ge_cases i (length (wasmTable st))) as [Hlt|Hge].
      + apply lookup_app_l. exact Hlt.
      + rewrite !lookup_ge_None_2; [reflexivity | lia |].
        rewrite length_app. simpl. lia. }
  split; [|split].
  - intros k Hk. rewrite (addFunction_registered _ _ _ _ _ _ Hk) in Hcall.
    inversion Hcall; subst. auto.
  - intros k Hk -> i Hi.
    apply (addFunction_unseen_inv _ _ _ _ _ _ _ Hk) in Hcall
      as (_ & s2 & g & Hs2 & _ & _ & _ & Htable & _).
    rewrite Htable, list_lookup_insert_ne by auto.
    apply (Hacq k); auto.
  - intros e -> i Hi.
    destruct (registry st !! f) as [k|] eqn:Hk.
    { rewrite (addFunction_registered _ _ _ _ _ _ Hk) in Hcall. discriminate Hcall. }
    apply (addFunction_unseen_inv _ _ _ _ _ _ _ Hk) in Hcall
      as (_ & s2 & [-> | [k Hs2]] & Htable & _); rewrite Htable.
    + now rewrite Ht.
    + destruct Hs2 as (_ & _ & _ & [[_ Hsame]|(_ & _ & _ & _ & Hgrow)]).
      * congruence.
      * rewrite Hgrow, Ht. apply lookup_app_l. exact Hi.
Qed.

Lemma addFunction_table_frame_witness :
  exists st',
    addFunction release_build fallback_host (JsFunc 5) (Some "ii") open_state
    = (Ok 1%nat, st') /\
    wasmTable st' !! 0%nat = wasmTable open_state !! 0%nat.
Proof.
  eexists. split; [vm_compute; reflexivity|].
  eapply (proj1 (proj2 (addFunction_table_frame release_build fallback_host
            (JsFunc 5) (Some "ii") open_state _ _ ltac:(vm_compute; reflexivity))));
    [vm_compute; reflexivity | reflexivity | lia].
Defined.

(** ** Exhaustion of the table *)

(** C4: with an empty FreeList and a table that refuses to grow,
    [getEmptyTableSlot] throws the string
    ['Unable to grow wasm table. Set ALLOW_TABLE_GROWTH.'] in place of
    the [RangeError] of [wasmTable.grow] and changes nothing.  A call
    [addFunction(f, sig)] in that state fails with that string when
    [f] is not registered (and, where [ASSERTIONS >= 2] checks it, is
    not an entry of the table); whatever the call does, it leaves the
    FreeList, the table and the Registry (the mapping registrations
    are answered from) as they were, the variable
    [functionsInTableMap] holding that mapping afterwards. *)
Theorem addFunction_table_exhausted (cfg : Settings) (host : Host) (f : callable)
    (sig : option string) (st : State)
    (Hfree : freeTableIndexes st = [])
    (Hfull : growable st = false) :
  wasmTable_grow 1 st = (Throw RangeError, st) /\
  getEmptyTableSlot st
  = (Throw (ThrownString "Unable to grow wasm table. Set ALLOW_TABLE_GROWTH."), st) /\
  exists r st',
    addFunction cfg host f sig st = (r, st') /\
    (registry st !! f = None ->
     ((2 <= ASSERTIONS cfg)%nat -> Some f ∉ wasmTable st) ->
     r = Throw (ThrownString "Unable to grow wasm table. Set ALLOW_TABLE_GROWTH.")) /\
    freeTableIndexes st' = freeTableIndexes st /\
    wasmTable st' = wasmTable st /\
    registry st' = registry st /\
    functionsInTableMap st' = Some (registry st) /\
    (functionsInTableMap st <> None -> st' = st).
Proof.
  assert (Hslot : forall s, freeTableIndexes s = [] -> growable s = false ->
            getEmptyTableSlot s
            = (Throw (ThrownString "Unable to grow wasm table. Set ALLOW_TABLE_GROWTH."), s)).
  { intros s Hf Hg.
    destruct (getEmptyTableSlot_cases s)
      as [(k & rest & Hpop & _)|[(_ & Hg' & _)|(_ & _ & H)]];
      [rewrite Hf in Hpop; discriminate Hpop | congruence | exact H]. }
  split; [|split; [apply Hslot; assumption|]].
  { unfold wasmTable_grow. unfold growable in Hfull.
    destruct (wasmTable_maximum st); [now rewrite Hfull | discriminate Hfull]. }
  destruct (initialized_frame st) as (Ht & Hmax & Hfr & Hinst).
  assert (Hslot' : getEmptyTableSlot (initialized st)
            = (Throw (ThrownString "Unable to grow wasm table. Set ALLOW_TABLE_GROWTH."),
               initialized st)).
  { apply Hslot; [congruence|]. unfold growable in *. now rewrite Hmax, Ht. }
  assert (Hframe :
            freeTableIndexes (initialized st) = freeTableIndexes st /\
            wasmTable (initialized st) = wasmTable st /\
            registry (initialized st) = registry st /\
            functionsInTableMap (initialized st) = Some (registry st) /\
            (functionsInTableMap st <> None -> initialized st = st)).
  { split; [exact Hfr|]. split; [exact Ht|]. split.
    - unfold registry at 1. now rewrite registry_initialized.
    - split; [apply registry_initialized | apply initialized_idem]. }
  destruct (registry st !! f) as [k|] eqn:Hk.
  - exists (Ok k), (initialized st).
    split; [apply addFunction_registered; exact Hk|].
    split; [intros H; discriminate H | exact Hframe].
  - rewrite addFunction_unseen by exact Hk.
    destruct (addFunction_check_frame cfg f (initialized st)) as [[[]|e] Hrc].
    + exists (Throw (ThrownString "Unable to grow wasm table. Set ALLOW_TABLE_GROWTH.")),
        (initialized st).
      split.
      { erewrite bind_ok by exact Hrc. erewrite bind_throw by exact Hslot'.
        reflexivity. }
      split; [reflexivity | exact Hframe].
    + exists (Throw e), (initialized st).
      split; [erewrite bind_throw by exact Hrc; reflexivity|].
      split; [|exact Hframe].
      intros _ Hcheck.
      rewrite addFunction_check_passes in Hrc by (rewrite Ht; exact Hcheck).
      discriminate Hrc.
Qed.

Lemma addFunction_table_exhausted_witness :
  exists st',
    addFunction release_build fallback_host (WasmFunc 1) None full_state
    = (Throw (ThrownString "Unable to grow wasm table. Set ALLOW_TABLE_GROWTH."), st') /\
    freeTableIndexes st' = [] /\
    wasmTable st' = [Some (WasmFunc 0)] /\
    registry st' = registry full_state.
Proof.
  destruct (proj2 (proj2 (addFunction_table_exhausted release_build fallback_host
              (WasmFunc 1) None full_state eq_refl eq_refl)))
    as (r & st' & Hcall & Hr & Hfree & Htable & Hreg & _).
  exists st'. rewrite Hcall.
  rewrite (Hr eq_refl ltac:(simpl; lia)). auto.
Defined.

(** ** Acquiring, releasing and reusing slots *)

Lemma getEmptyTableSlot_grows st :
  freeTableIndexes st = [] -> growable st = true ->
  getEmptyTableSlot st
  = (Ok (length (wasmTable st)), set_wasmTable (wasmTable st ++ [None]) st).
Proof.
  intros Hfree Hgrow.
  destruct (getEmptyTableSlot_cases st)
    as [(k & rest & Hpop & _)|[(_ & _ & H)|(_ & Hg & _)]];
    [rewrite Hfree in Hpop; discriminate Hpop | exact H | congruence].
Qed.

Lemma getEmptyTableSlot_pops st k rest :
  freeTableIndexes st = rest ++ [k] ->
  getEmptyTableSlot st = (Ok k, set_freeTableIndexes rest st).
Proof.
  intros Hfree.
  assert (Hpop : array_pop (freeTableIndexes st) = Some (k, rest))
    by (rewrite Hfree; apply array_pop_push).
  destruct (getEmptyTableSlot_cases st)
    as [(k' & rest' & Hpop' & H)|[(Hnil & _)|(Hnil & _)]];
    [| rewrite Hnil in Hpop; discriminate Hpop ..].
  rewrite Hpop in Hpop'. inversion Hpop'; subst. exact H.
Qed.

(** A request for an unseen callable, nothing released: the table
    grows by one entry and the callable gets the new highest index. *)
Lemma addFunction_grows cfg host f sig st :
  registry st !! f = None ->
  ((2 <= ASSERTIONS cfg)%nat -> Some f ∉ wasmTable st) ->
  registrable cfg host f sig = true ->
  freeTableIndexes st = [] -> growable st = true ->
  exists g st',
    addFunction cfg host f sig st = (Ok (length (wasmTable st)), st') /\
    (g = f \/ g = Wrapper (instances st)) /\
    wasmTable st' = wasmTable st ++ [Some g] /\
    wasmTable_maximum st' = wasmTable_maximum st /\
    freeTableIndexes st' = [] /\
    functionsInTableMap st' = Some (<[f := length (wasmTable st)]> (registry st)) /\
    (instances st <= instances st')%nat.
Proof.
  intros Hk Hcheck Hreg Hfree Hgrow.
  destruct (initialized_frame st) as (Ht & Hmax & Hfr & Hinst).
  assert (Hslot : getEmptyTableSlot (initialized st)
                  = (Ok (length (wasmTable st)),
                     set_wasmTable (wasmTable st ++ [None]) (initialized st))).
  { rewrite <- Ht. apply getEmptyTableSlot_grows; [congruence|].
    unfold growable in *. now rewrite Hmax, Ht. }
  destruct (addFunction_unseen_ok cfg host f sig st _ _ Hk Hcheck Hreg Hslot)
    as (g & st' & Hcall & Hg & Htable & Hmax' & Hfree' & Hmap' & Hinst').
  { fields. rewrite length_app. simpl. lia. }
  exists g, st'. fields. repeat split; auto; [|congruence].
  rewrite Htable, insert_app_r_alt, Nat.sub_diag by lia. reflexivity.
Qed.

(** A request for an unseen callable after a release: the last
    released slot is handed out again and the table keeps its length. *)
Lemma addFunction_reuses cfg host f sig st k rest :
  registry st !! f = None ->
  ((2 <= ASSERTIONS cfg)%nat -> Some f ∉ wasmTable st) ->
  registrable cfg host f sig = true ->
  freeTableIndexes st = rest ++ [k] ->
  (k < length (wasmTable st))%nat ->
  exists g st',
    addFunction cfg host f sig st = (Ok k, st') /\
    (g = f \/ g = Wrapper (instances st)) /\
    wasmTable st' = <[k := Some g]> (wasmTable st) /\
    wasmTable_maximum st' = wasmTable_maximum st /\
    freeTableIndexes st' = rest /\
    functionsInTableMap st' = Some (<[f := k]> (registry st)) /\
    (instances st <= instances st')%nat.
Proof.
  intros Hk Hcheck Hreg Hfree Hlt.
  destruct (initialized_frame st) as (Ht & Hmax & Hfr & Hinst).
  assert (Hslot : getEmptyTableSlot (initialized st)
                  = (Ok k, set_freeTableIndexes rest (initialized st)))
    by (apply getEmptyTableSlot_pops; congruence).
  destruct (addFunction_unseen_ok cfg host f sig st _ _ Hk Hcheck Hreg Hslot)
    as (g & st' & Hcall & Hg & Htable & Hmax' & Hfree' & Hmap' & Hinst').
  { fields. congruence. }
  exists g, st'. fields. repeat split; auto. congruence.
Qed.

Lemma not_in_entries (f : callable) (entries : list (option callable)) :
  Forall (fun entry => entry <> Some f) entries -> Some f ∉ entries.
Proof.
  intros Hall Hin. rewrite Forall_forall in Hall.
  apply (Hall (Some f)); [|reflexivity]. apply list_elem_of_In. exact Hin.
Qed.

(** C3: starting from an empty table that may grow (by two entries at
    least) and an empty FreeList, registering two distinct unseen
    callables [f1] then [f2] returns the slots 0 and 1; after
    [removeFunction] of [f1]'s slot, registering a third unseen
    callable [f3] returns slot 0 again, and the table still has two
    entries.  The callables are ones the table can hold (as they are,
    or wrapped for their signature); in a build with [ASSERTIONS >= 2]
    they are also no trampolines created by the earlier calls, which
    the level-2 check would find in the table. *)
Theorem addFunction_reuses_released_slot (cfg : Settings) (host : Host)
    (f1 f2 f3 : callable) (sig1 sig2 sig3 : option string) (st : State)
    (Htable : wasmTable st = [])
    (Hfree : freeTableIndexes st = [])
    (Hroom : match wasmTable_maximum st with
             | Some max => (2 <= max)%nat
             | None => True
             end)
    (Hunseen : registry st !! f1 = None /\ registry st !! f2 = None /\
               registry st !! f3 = None)
    (Hdistinct : f1 <> f2 /\ f1 <> f3 /\ f2 <> f3)
    (Hexisting : (2 <= ASSERTIONS cfg)%nat ->
                 existing st f2 = true /\ existing st f3 = true)
    (Hregistrable : registrable cfg host f1 sig1 = true /\
                    registrable cfg host f2 sig2 = true /\
                    registrable cfg host f3 sig3 = true) :
  exists st1 st2 st3 st4,
    addFunction cfg host f1 sig1 st = (Ok 0%nat, st1) /\
    addFunction cfg host f2 sig2 st1 = (Ok 1%nat, st2) /\
    (0 < 1)%nat /\
    removeFunction 0 st2 = (Ok tt, st3) /\
    freeTableIndexes st3 = [0%nat] /\
    addFunction cfg host f3 sig3 st3 = (Ok 0%nat, st4) /\
    freeTableIndexes st4 = [] /\
    length (wasmTable st2) = 2%nat /\
    length (wasmTable st4) = length (wasmTable st2).
Proof.
  destruct Hunseen as (Hu1 & Hu2 & Hu3).
  destruct Hdistinct as (H12 & H13 & H23).
  destruct Hregistrable as (Hr1 & Hr2 & Hr3).
  (* f1 gets slot 0 *)
  destruct (addFunction_grows cfg host f1 sig1 st Hu1) as
    (g1 & st1 & Hcall1 & Hg1 & Ht1 & Hmax1 & Hfree1 & Hmap1 & Hinst1); auto.
  { intros _. rewrite Htable. apply not_elem_of_nil. }
  { unfold growable. rewrite Htable. destruct (wasmTable_maximum st); [|reflexivity].
    apply Nat.leb_le. simpl. lia. }
  rewrite Htable in *. cbn [length app] in *.
  assert (Hg1f2 : (2 <= ASSERTIONS cfg)%nat -> Some g1 <> Some f2).
  { intros Hlevel. destruct (Hexisting Hlevel) as [He2 _].
    destruct Hg1 as [-> | ->]; [congruence|].
    intros [= <-]. revert He2. simpl. rewrite Nat.ltb_irrefl. discriminate. }
  assert (Hg1f3 : (2 <= ASSERTIONS cfg)%nat -> Some g1 <> Some f3).
  { intros Hlevel. destruct (Hexisting Hlevel) as [_ He3].
    destruct Hg1 as [-> | ->]; [congruence|].
    intros [= <-]. revert He3. simpl. rewrite Nat.ltb_irrefl. discriminate. }
  (* f2 gets slot 1 *)
  destruct (addFunction_grows cfg host f2 sig2 st1) as
    (g2 & st2 & Hcall2 & Hg2 & Ht2 & Hmax2 & Hfree2 & Hmap2 & Hinst2); auto.
  { rewrite (registry_of_map _ _ Hmap1), lookup_insert_ne by exact H12. exact Hu2. }
  { intros Hlevel. rewrite Ht1. apply not_in_entries. repeat constructor.
    exact (Hg1f2 Hlevel). }
  { unfold growable. rewrite Hmax1, Ht1. destruct (wasmTable_maximum st); [|reflexivity].
    apply Nat.leb_le. simpl. lia. }
  rewrite Ht1 in *. cbn [length app] in *.
  rewrite (registry_of_map _ _ Hmap1) in Hmap2.
  assert (Hg2f3 : (2 <= ASSERTIONS cfg)%nat -> Some g2 <> Some f3).
  { intros Hlevel. destruct (Hexisting Hlevel) as [_ He3].
    destruct Hg2 as [-> | ->]; [congruence|].
    intros [= <-]. revert He3. simpl. intros He3. apply Nat.ltb_lt in He3. lia. }
  (* the slot of f1 is released *)
  pose proof (removeFunction_run 0 st2 _ (Some g1) Hmap2) as Hremove.
  rewrite Ht2 in Hremove. specialize (Hremove eq_refl).
  rewrite Hfree2 in Hremove. cbn [array_push app] in Hremove.
  set (st3 := {| wasmTable := [Some g1; Some g2];
                 wasmTable_maximum := wasmTable_maximum st2;
                 freeTableIndexes := [0%nat];
                 functionsInTableMap :=
                   Some (delete g1 (<[f2 := 1%nat]> (<[f1 := 0%nat]> (registry st))));
                 instances := instances st2 |}) in *.
  (* f3 gets slot 0 *)
  destruct (addFunction_reuses cfg host f3 sig3 st3 0 []) as
    (g3 & st4 & Hcall3 & Hg3 & Ht3 & Hmax3 & Hfree3 & Hmap3 & Hinst3); auto.
  { unfold registry, st3. fields. apply lookup_delete_None. right.
    rewrite !lookup_insert_ne by auto. exact Hu3. }
  { intros Hlevel. unfold st3. fields. apply not_in_entries.
    repeat constructor; auto. }
  { unfold st3. simpl. lia. }
  exists st1, st2, st3, st4.
  repeat split; auto.
  - rewrite Ht2. reflexivity.
  - rewrite Ht3, length_insert, Ht2. reflexivity.
Qed.

Lemma addFunction_reuses_released_slot_witness :
  exists st1 st2 st3 st4,
    addFunction release_build fallback_host (JsFunc 1) (Some "vi") empty_state
      = (Ok 0%nat, st1) /\
    addFunction release_build fallback_host (WasmFunc 2) None st1 = (Ok 1%nat, st2) /\
    (0 < 1)%nat /\
    removeFunction 0 st2 = (Ok tt, st3) /\
    freeTableIndexes st3 = [0%nat] /\
    addFunction release_build fallback_host (JsFunc 3) (Some "i") st3
      = (Ok 0%nat, st4) /\
    freeTableIndexes st4 = [] /\
    length (wasmTable st2) = 2%nat /\
    length (wasmTable st4) = length (wasmTable st2).
Proof.
  apply (addFunction_reuses_released_slot release_build fallback_host
           (JsFunc 1) (WasmFunc 2) (JsFunc 3) (Some "vi") None (Some "i")
           empty_state);
    try reflexivity; try exact I.
  - repeat split; reflexivity.
  - repeat split; discriminate.
  - intros _. split; reflexivity.
  - repeat split; reflexivity.
Defined.

(** ** Releasing a slot *)

(** What [removeFunction] does to a slot in range: the registry loses
    the key that is the table entry at that slot, the slot goes on the
    FreeList, the table is not touched. *)
Lemma removeFunction_effect index st m entry :
  functionsInTableMap st = Some m ->
  wasmTable st !! index = Some entry ->
  exists st',
    removeFunction index st = (Ok tt, st') /\
    wasmTable st' = wasmTable st /\
    freeTableIndexes st' = freeTableIndexes st ++ [index] /\
    functionsInTableMap st'
    = Some (match entry with
            | Some g => delete g m
            | None => m
            end).
Proof.
  intros Hm Hentry. eexists. split; [apply (removeFunction_run _ _ _ _ Hm Hentry)|].
  fields. auto.
Qed.

(** A registry entry whose callable is not the table entry at its slot
    (a JS function sits in the table as its trampoline) survives the
    release of the slot. *)
Lemma removeFunction_misses_wrapped index st m f g :
  functionsInTableMap st = Some m ->
  m !! f = Some index ->
  wasmTable st !! index = Some (Some g) ->
  g <> f ->
  exists st',
    removeFunction index st = (Ok tt, st') /\
    registry st' !! f = Some index /\
    freeTableIndexes st' = freeTableIndexes st ++ [index].
Proof.
  intros Hm Hf Hentry Hne.
  destruct (removeFunction_effect _ _ _ _ Hm Hentry) as (st' & Hcall & _ & Hfree & Hmap).
  exists st'. split; [exact Hcall|]. split; [|exact Hfree].
  rewrite (registry_of_map _ _ Hmap), lookup_delete_ne by exact Hne. exact Hf.
Qed.

(** C1 at the failing input: a JS function registered with signature
    ["v"] on an empty table gets slot 0, where its trampoline is
    stored; [removeFunction(0)] pushes 0 on the FreeList and leaves the
    table entry alone, but the registry still maps the function to
    slot 0. *)
Theorem removeFunction_keeps_js_registration :
  exists st1 st2,
    addFunction release_build fallback_host (JsFunc 0) (Some "v") empty_state
      = (Ok 0%nat, st1) /\
    wasmTable st1 = [Some (Wrapper 0)] /\
    registry st1 !! JsFunc 0 = Some 0%nat /\
    removeFunction 0 st1 = (Ok tt, st2) /\
    registry st2 !! JsFunc 0 = Some 0%nat /\
    freeTableIndexes st2 = [0%nat] /\
    wasmTable st2 = [Some (Wrapper 0)].
Proof.
  eexists _, _.
  split; [vm_compute; reflexivity|].
  split; [reflexivity|]. split; [reflexivity|].
  split; [vm_compute; reflexivity|].
  repeat split; reflexivity.
Qed.

(** C9 at the failing input: a JS function is registered (slot 0) and
    released; a wasm function then gets the released slot 0; a new
    registration of the JS function is answered from the stale
    registry entry with slot 0 as well, so two live registrations hold
    slot 0 and the table entry there is the wasm function. *)
Theorem live_registrations_share_slot :
  exists st1 st2 st3 st4,
    addFunction release_build fallback_host (JsFunc 0) (Some "v") empty_state
      = (Ok 0%nat, st1) /\
    removeFunction 0 st1 = (Ok tt, st2) /\
    addFunction release_build fallback_host (WasmFunc 1) None st2
      = (Ok 0%nat, st3) /\
    addFunction release_build fallback_host (JsFunc 0) (Some "v") st3
      = (Ok 0%nat, st4) /\
    JsFunc 0 <> WasmFunc 1 /\
    registry st4 !! JsFunc 0 = Some 0%nat /\
    registry st4 !! WasmFunc 1 = Some 0%nat /\
    wasmTable st4 = [Some (WasmFunc 1)] /\
    freeTableIndexes st4 = [].
Proof.
  eexists _, _, _, _.
  split; [vm_compute; reflexivity|].
  split; [vm_compute; reflexivity|].
  split; [vm_compute; reflexivity|].
  split; [vm_compute; reflexivity|].
  split; [discriminate|].
  repeat split; reflexivity.
Qed.

(** * Further properties of the code *)

(** ** The encoder out of its range *)

Lemma mod_2_14 n : n mod 2 ^ 14 = n mod 128 + 128 * ((n / 128) mod 128).
Proof. change (2 ^ 14) with (128 * 128). apply Z.rem_mul_r; lia. Qed.

(** Beyond 2^14 the encoder keeps the low 14 bits only: without
    [ASSERTIONS] it still appends two elements, and the two bytes they
    become decode to [n mod 2^14], not to [n]; with [ASSERTIONS] the
    call fails on its assertion. *)
Theorem uleb128Encode_truncates (cfg : Settings) (target : list jsval) (n : Z)
    (Hn : 2 ^ 14 <= n < 2 ^ 31) :
  (ASSERTIONS cfg = O ->
   exists a b,
     uleb128Encode cfg n target = Ok (target ++ [JNum a; JNum b]) /\
     uleb128_decode (Uint8Array [JNum a; JNum b]) = n mod 2 ^ 14 /\
     n mod 2 ^ 14 <> n) /\
  ((0 < ASSERTIONS cfg)%nat ->
   uleb128Encode cfg n target = Throw (AssertionFailed None)).
Proof.
  assert (Hge : (n <? 16384) = false) by (apply Z.ltb_ge; lia).
  assert (Hbig : (n <? 128) = false) by (apply Z.ltb_ge; lia).
  split.
  - intros Hoff. unfold uleb128Encode, assert. rewrite Hoff, Hbig.
    cbn [Nat.ltb Nat.leb rbind].
    eexists _, _. split; [reflexivity|].
    rewrite js_or_128, js_sar_7 by lia.
    pose proof (Z.mod_pos_bound n 128 ltac:(lia)) as Hm.
    split.
    + unfold Uint8Array. cbn [map toUint8 uleb128_decode].
      rewrite !land_127, mod_2_14.
      rewrite (Z.mod_small (n mod 128 + 128) 256) by lia.
      replace (n mod 128 + 128) with (n mod 128 + 1 * 128) by lia.
      rewrite Z.mod_add, Z.mod_mod by lia.
      rewrite Z.mod_mod_divide by (exists 2; reflexivity). lia.
    + pose proof (Z.mod_pos_bound n (2 ^ 14) ltac:(lia)). lia.
  - intros Hon. unfold uleb128Encode, assert. apply Nat.ltb_lt in Hon.
    rewrite Hon, Hge. reflexivity.
Qed.

Lemma uleb128Encode_truncates_witness :
  2 ^ 14 <= 16385 < 2 ^ 31 /\
  uleb128Encode release_build 16385 [] = Ok [JNum 129; JNum 128] /\
  uleb128_decode (Uint8Array [JNum 129; JNum 128]) = 1.
Proof.
  split; [lia|].
  destruct (proj1 (uleb128Encode_truncates release_build [] 16385 ltac:(lia)) eq_refl)
    as (a & b & Henc & Hdec & _).
  vm_compute in Henc. injection Henc as <- <-. split; [reflexivity | exact Hdec].
Defined.

(** ** The translation of an arbitrary signature *)

Lemma sigToWasmTypes_loop_result cfg cs : forall acc ps,
  fold_chars
    (fun k params =>
       rbind (assert cfg (key_in (typeNames cfg) k)
                (Some ("invalid signature char: " +:+ show_char k)))
         (fun _ => Ok (params ++ [lookup_key (typeNames cfg) k])))
    cs acc = Ok ps ->
  ps = acc ++ map (typeNames cfg) cs.
Proof.
  induction cs as [|c cs IH]; intros acc ps; cbn [fold_chars map].
  - intros [= <-]. now rewrite app_nil_r.
  - destruct (assert cfg (key_in (typeNames cfg) (Some c))
                (Some ("invalid signature char: " +:+ show_char (Some c))))
      as [[]|e]; cbn [rbind lookup_key]; [|discriminate].
    intros H. apply IH in H. rewrite H, <- app_assoc. reflexivity.
Qed.

(** What the translation returns, when it returns. *)
Lemma sigToWasmTypes_result cfg sig type :
  sigToWasmTypes cfg sig = Ok type ->
  type = {| parameters := map (typeNames cfg) (list_ascii_of_string (sigParam_of sig));
            results := if is_char "v" (String.get 0 sig) then []
                       else [lookup_key (typeNames cfg) (String.get 0 sig)] |}.
Proof.
  intros Hcall. destruct sig as [|r ps].
  - vm_compute in Hcall. injection Hcall as <-. reflexivity.
  - revert Hcall. unfold sigToWasmTypes.
    cbn [String.length String.get is_char lookup_key Nat.sub]. rewrite Nat.sub_0_r.
    rewrite (for_loop_shift _
      (fun i params =>
         rbind (assert cfg (key_in (typeNames cfg) (String.get i ps))
                  (Some ("invalid signature char: " +:+ show_char (String.get i ps))))
           (fun _ => Ok (params ++ [lookup_key (typeNames cfg) (String.get i ps)]))))
      by reflexivity.
    rewrite (for_loop_string
      (fun k params =>
         rbind (assert cfg (key_in (typeNames cfg) k)
                  (Some ("invalid signature char: " +:+ show_char k)))
           (fun _ => Ok (params ++ [lookup_key (typeNames cfg) k])))).
    destruct (fold_chars _ (list_ascii_of_string ps) []) as [params|e] eqn:Hloop;
      cbn [rbind]; [|discriminate].
    intros [= <-]. apply sigToWasmTypes_loop_result in Hloop. subst params.
    rewrite sigParam_of_cons. reflexivity.
Qed.

(** Whenever the translation returns, for a valid signature or not, it
    has dropped and reordered nothing: there is one parameter entry
    per character after the first, in order, an unknown character
    giving [undefined]; and the result list is empty exactly for a
    first character [v] and holds one entry otherwise. *)
Theorem sigToWasmTypes_shape (cfg : Settings) (sig : string) (type : FuncType)
    (Hcall : sigToWasmTypes cfg sig = Ok type) :
  parameters type = map (typeNames cfg) (list_ascii_of_string (sigParam_of sig)) /\
  length (parameters type) = (String.length sig - 1)%nat /\
  (results type = [] <-> String.get 0 sig = Some "v"%char) /\
  (results type <> [] ->
   results type = [lookup_key (typeNames cfg) (String.get 0 sig)]).
Proof.
  assert (Hlen : forall s, length (list_ascii_of_string s) = String.length s)
    by (induction s; simpl; auto).
  apply sigToWasmTypes_result in Hcall. subst type. cbn [parameters results].
  split; [reflexivity|]. split.
  - rewrite length_map, Hlen. destruct sig as [|r ps]; [reflexivity|].
    rewrite sigParam_of_cons. simpl. lia.
  - destruct sig as [|r ps]; cbn [String.get is_char].
    + split; [split; discriminate | reflexivity].
    + destruct (Ascii.eqb_spec r "v") as [->|Hne].
      * split; [tauto | intros H; contradiction].
      * split; [|reflexivity].
        split; [discriminate | intros [= Heq]; contradiction].
Qed.

Lemma sigToWasmTypes_shape_witness :
  sigToWasmTypes release_build "?i#"
    = Ok {| parameters := [Some i32; None]; results := [None] |} /\
  length [Some i32; @None valtype] = (String.length "?i#" - 1)%nat.
Proof.
  split; [reflexivity|].
  exact (proj1 (proj2 (sigToWasmTypes_shape release_build "?i#"
                         {| parameters := [Some i32; None]; results := [None] |}
                         eq_refl))).
Defined.

(** ** The two conversion paths agree *)

Lemma wire_type_fun cfg c t t' : wire_type cfg c t -> wire_type cfg c t' -> t = t'.
Proof. intros H H'. inversion H; subst; inversion H'; subst; congruence. Qed.

Lemma typeCodes_is_tag cfg c : is_tag c = false -> typeCodes cfg c = None.
Proof.
  intros Hc.
  destruct c as [[] [] [] [] [] [] [] []]; try discriminate Hc; reflexivity.
Qed.

(** The bytes of the module for a valid signature with a type-section
    body below 2^14 bytes. *)
Lemma module_bytes_layout cfg r ps :
  (Ascii.eqb r "v" || is_tag r) = true ->
  forallb is_tag (list_ascii_of_string ps) = true ->
  Z.of_nat (S (String.length ps)) <= (if Ascii.eqb r "v" then 16379 else 16378) ->
  exists bytes params result,
    convertJsFunctionToWasm_bytes cfg (String r ps) = Ok bytes /\
    Forall2 (wire_type cfg) (list_ascii_of_string ps) params /\
    match result with
    | None => r = "v"%char
    | Some t => wire_type cfg r t
    end /\
    Uint8Array bytes = spec_module_bytes params result.
Proof.
  intros Hr Hps Hlen.
  assert (Hn : Z.of_nat (String.length ps) < 16384)
    by (destruct (Ascii.eqb r "v"); lia).
  destruct (convertJsFunctionToWasm_bytes_valid cfg r ps Hr Hps Hn)
    as (params & result & Hall & Hres & Hbytes).
  assert (Hlenp : String.length ps = length params).
  { apply Forall2_length in Hall. rewrite <- Hall. clear.
    induction ps; simpl; auto. }
  assert (Hbody : 0 <= Z.of_nat (length (spec_type_section_body params result)) < 2 ^ 14).
  { apply spec_type_section_body_length. rewrite <- Hlenp.
    destruct result as [t|]; simpl.
    - destruct (Ascii.eqb_spec r "v") as [->|_]; [inversion Hres | lia].
    - subst r. simpl in Hlen. lia. }
  rewrite uleb128Encode_small in Hbytes by exact Hbody. cbn [rbind] in Hbytes.
  rewrite <- !map_app in Hbytes.
  eexists _, params, result.
  split; [exact Hbytes|]. split; [exact Hall|]. split; [exact Hres|].
  rewrite Uint8Array_bytes.
  - unfold spec_module_bytes. rewrite <- !app_assoc. reflexivity.
  - replace (_ ++ _) with (spec_module_bytes params result)
      by (unfold spec_module_bytes; rewrite <- !app_assoc; reflexivity).
    apply spec_module_bytes_range.
Qed.

(** The type the reflection path hands to [WebAssembly.Function] and
    the type section the fallback path writes describe the same
    function type: for a valid signature (with a type-section body
    below 2^14 bytes) the module bytes are the layout of exactly the
    parameter and result types that [sigToWasmTypes] returns, the
    address-width tag being resolved the same way in both. *)
Theorem conversion_paths_agree (cfg : Settings) (sig : string)
    (Hvalid : valid_sig sig = true)
    (Hlen : Z.of_nat (String.length sig)
            <= if is_char "v" (String.get 0 sig) then 16379 else 16378) :
  exists params result bytes,
    sigToWasmTypes cfg sig
    = Ok {| parameters := map Some params;
            results := match result with
                       | Some t => [Some t]
                       | None => []
                       end |} /\
    convertJsFunctionToWasm_bytes cfg sig = Ok bytes /\
    Uint8Array bytes = spec_module_bytes params result.
Proof.
  destruct sig as [|r ps]; [discriminate Hvalid|].
  simpl in Hvalid. apply andb_true_iff in Hvalid as [Hr Hps].
  cbn [String.get String.length is_char] in Hlen.
  destruct (module_bytes_layout cfg r ps Hr Hps Hlen)
    as (bytes & params & result & Hbytes & Hparams & Hresult & Hlayout).
  exists params, result, bytes. split; [|auto].
  destruct (sigToWasmTypes_cons cfg r ps Hps) as (ps' & -> & Hall).
  do 2 f_equal.
  - clear -Hparams Hall. revert ps' Hall.
    induction Hparams as [|c t cs ts Hw _ IH]; intros ps' Hall;
      inversion Hall as [|? o ? os (t' & Hw' & ->) Hrest]; subst; [reflexivity|].
    cbn [map]. rewrite (wire_type_fun _ _ _ _ Hw Hw'). f_equal. apply IH. exact Hrest.
  - destruct result as [t|].
    + destruct (Ascii.eqb_spec r "v") as [->|_]; [inversion Hresult|].
      assert (Htag : is_tag r = true)
        by (destruct (is_tag r) eqn:E; [reflexivity|];
            inversion Hresult; subst; discriminate E).
      destruct (is_tag_typeNames cfg r Htag) as (t' & -> & Hw').
      now rewrite (wire_type_fun _ _ _ _ Hresult Hw').
    + subst r. reflexivity.
Qed.

Lemma conversion_paths_agree_witness :
  valid_sig "ipd" = true /\
  exists params result bytes,
    sigToWasmTypes {| ASSERTIONS := 1; MEMORY64 := true; WASM2JS := false |} "ipd"
    = Ok {| parameters := map Some params;
            results := match result with
                       | Some t => [Some t]
                       | None => []
                       end |} /\
    convertJsFunctionToWasm_bytes
      {| ASSERTIONS := 1; MEMORY64 := true; WASM2JS := false |} "ipd" = Ok bytes /\
    Uint8Array bytes = spec_module_bytes params result.
Proof.
  split; [reflexivity|].
  apply (conversion_paths_agree
           {| ASSERTIONS := 1; MEMORY64 := true; WASM2JS := false |} "ipd" eq_refl).
  simpl. lia.
Defined.

(** With assertions on, the loop of [convertJsFunctionToWasm] stops at
    the first character that is no parameter tag. *)
Lemma typeSectionBody_loop_fails cfg good c rest : forall acc,
  (0 < ASSERTIONS cfg)%nat ->
  forallb is_tag good = true -> is_tag c = false ->
  fold_chars
    (fun k body =>
       rbind (assert cfg (key_in (typeCodes cfg) k)
                (Some ("invalid signature char: " +:+ show_char k)))
         (fun _ => Ok (body ++ [js_of_lookup (lookup_key (typeCodes cfg) k)])))
    (good ++ c :: rest) acc
  = Throw (AssertionFailed (Some ("invalid signature char: " +:+ String c EmptyString))).
Proof.
  intros acc Hassert Hgood Hc. revert acc.
  induction good as [|a good IH]; intros acc; cbn [fold_chars app].
  - unfold key_in at 1. cbn [lookup_key]. rewrite (typeCodes_is_tag cfg c Hc).
    unfold assert. apply Nat.ltb_lt in Hassert. rewrite Hassert. reflexivity.
  - simpl in Hgood. apply andb_true_iff in Hgood as [Ha Hgood].
    destruct (is_tag_typeCodes cfg a Ha) as (t & Ht & _).
    unfold key_in at 1. cbn [lookup_key]. rewrite Ht, assert_true. cbn [rbind].
    apply IH. exact Hgood.
Qed.

Lemma sigToWasmTypes_rejects_parameter_first cfg sig i c :
  (0 < ASSERTIONS cfg)%nat -> (1 <= i)%nat ->
  String.get i sig = Some c -> is_tag c = false ->
  exists r ps good c' rest,
    sig = String r ps /\
    list_ascii_of_string ps = good ++ c' :: rest /\
    forallb is_tag good = true /\ is_tag c' = false /\
    sigToWasmTypes cfg sig
    = Throw (AssertionFailed
               (Some ("invalid signature char: " +:+ String c' EmptyString))).
Proof.
  intros Hassert Hpos Hget Hbad.
  destruct sig as [|r ps]; [discriminate Hget|].
  destruct i as [|i]; [lia|]. cbn [String.get] in Hget.
  rewrite get_list_ascii in Hget.
  destruct (first_non_tag _ _ _ Hget Hbad)
    as (good & c' & rest & Hcs & Hgood & Hc' & _).
  exists r, ps, good, c', rest. repeat split; auto.
  unfold sigToWasmTypes.
  cbn [String.length String.get is_char lookup_key Nat.sub]. rewrite Nat.sub_0_r.
  rewrite (for_loop_shift _
    (fun i params =>
       rbind (assert cfg (key_in (typeNames cfg) (String.get i ps))
                (Some ("invalid signature char: " +:+ show_char (String.get i ps))))
         (fun _ => Ok (params ++ [lookup_key (typeNames cfg) (String.get i ps)]))))
    by reflexivity.
  rewrite (for_loop_string
    (fun k params =>
       rbind (assert cfg (key_in (typeNames cfg) k)
                (Some ("invalid signature char: " +:+ show_char k)))
         (fun _ => Ok (params ++ [lookup_key (typeNames cfg) k])))).
  rewrite Hcs, sigToWasmTypes_loop_fails by assumption. reflexivity.
Qed.

(** In a build with [ASSERTIONS], a signature of fewer than 2^14
    parameters with a character outside [i j f d p] at a parameter
    position is refused alike by both paths: [sigToWasmTypes] and the
    byte synthesis fail with the same assertion, so
    [convertJsFunctionToWasm] throws it on any host, creates no
    wrapper and leaves the state as it was. *)
Theorem conversion_rejects_parameter (cfg : Settings) (host : Host)
    (func : callable) (sig : string) (i : nat) (c : ascii) (st : State)
    (Hassert : (0 < ASSERTIONS cfg)%nat)
    (Hwasm : WASM2JS cfg = false)
    (Hlen : Z.of_nat (String.length sig) <= 16384)
    (Hpos : (1 <= i)%nat)
    (Hget : String.get i sig = Some c)
    (Hbad : is_tag c = false) :
  exists e,
    sigToWasmTypes cfg sig = Throw e /\
    convertJsFunctionToWasm_bytes cfg sig = Throw e /\
    convertJsFunctionToWasm cfg host func (Some sig) st = (Throw e, st).
Proof.
  destruct (sigToWasmTypes_rejects_parameter_first cfg sig i c Hassert Hpos Hget Hbad)
    as (r & ps & good & c' & rest & -> & Hcs & Hgood & Hc' & Htypes).
  eexists. split; [exact Htypes|].
  assert (Hbytes : convertJsFunctionToWasm_bytes cfg (String r ps)
                   = Throw (AssertionFailed
                              (Some ("invalid signature char: " +:+ String c' EmptyString)))).
  { unfold convertJsFunctionToWasm_bytes, typeSectionBody_of.
    rewrite sigParam_of_cons, sigRet_of_cons.
    cbn [String.length] in Hlen.
    rewrite uleb128Encode_small by lia. cbn [rbind].
    rewrite (for_loop_string
      (fun k body =>
         rbind (assert cfg (key_in (typeCodes cfg) k)
                  (Some ("invalid signature char: " +:+ show_char k)))
           (fun _ => Ok (body ++ [js_of_lookup (lookup_key (typeCodes cfg) k)])))).
    rewrite Hcs, typeSectionBody_loop_fails by assumption. reflexivity. }
  split; [exact Hbytes|].
  unfold convertJsFunctionToWasm. rewrite Hwasm.
  destruct (WebAssembly_Function host); unfold bind, lift;
    [rewrite Htypes | rewrite Hbytes]; reflexivity.
Qed.

Lemma conversion_rejects_parameter_witness :
  String.get 1 "v?" = Some "?"%char /\
  convertJsFunctionToWasm
    {| ASSERTIONS := 1; MEMORY64 := false; WASM2JS := false |} fallback_host
    (JsFunc 0) (Some "v?") empty_state
  = (Throw (AssertionFailed (Some "invalid signature char: ?")), empty_state).
Proof.
  split; [reflexivity|].
  destruct (conversion_rejects_parameter
              {| ASSERTIONS := 1; MEMORY64 := false; WASM2JS := false |}
              fallback_host (JsFunc 0) "v?" 1 "?" empty_state
              ltac:(simpl; lia) eq_refl ltac:(simpl; lia) ltac:(lia) eq_refl eq_refl)
    as (e & Htypes & _ & Hconv).
  rewrite Hconv. vm_compute in Htypes. injection Htypes as <-. reflexivity.
Defined.

(** ** The first-use scan *)

Lemma scan_table_absent es : forall offset m f,
  Some f ∉ es -> scan_table offset es m !! f = m !! f.
Proof.
  induction es as [|[g|] es IH]; intros offset m f Hnot; cbn [scan_table].
  - reflexivity.
  - rewrite IH by (intros Hin; apply Hnot; right; exact Hin).
    apply lookup_insert_ne. intros ->. apply Hnot. left.
  - apply IH. intros Hin. apply Hnot. right. exact Hin.
Qed.

Lemma scan_table_last es : forall offset m f j,
  es !! j = Some (Some f) ->
  (forall j', (j < j')%nat -> es !! j' <> Some (Some f)) ->
  scan_table offset es m !! f = Some (offset + j)%nat.
Proof.
  induction es as [|e es IH]; intros offset m f j Hj Hlast; [discriminate Hj|].
  destruct j as [|j].
  - injection Hj as ->. cbn [scan_table].
    rewrite scan_table_absent.
    + rewrite lookup_insert_eq. f_equal. lia.
    + intros Hin. apply list_elem_of_lookup in Hin as [j' Hj'].
      apply (Hlast (S j')); [lia | exact Hj'].
  - assert (Hrest : forall m', scan_table (S offset) es m' !! f = Some (offset + S j)%nat).
    { intros m'. rewrite (IH (S offset) m' f j Hj).
      - f_equal. lia.
      - intros j' Hlt. apply (Hlast (S j')). lia. }
    destruct e as [g|]; cbn [scan_table]; apply Hrest.
Qed.

(** [updateTableMap(offset, count)] over a range inside the table
    never fails; it leaves the entry of every function that does not
    occur in the range as it was, and records for a function that
    occurs in the range the highest index in the range that holds it,
    replacing what was recorded before. *)
Theorem updateTableMap_records_last (offset count : nat) (st : State)
    (m : gmap callable nat)
    (Hmap : functionsInTableMap st = Some m)
    (Hrange : (offset + count <= length (wasmTable st))%nat) :
  exists m',
    updateTableMap offset count st
    = (Ok tt, set_functionsInTableMap (Some m') st) /\
    (forall f,
       (forall i, (offset <= i < offset + count)%nat ->
                  wasmTable st !! i <> Some (Some f)) ->
       m' !! f = m !! f) /\
    (forall f i,
       (offset <= i < offset + count)%nat ->
       wasmTable st !! i = Some (Some f) ->
       (forall j, (i < j < offset + count)%nat ->
                  wasmTable st !! j <> Some (Some f)) ->
       m' !! f = Some i).
Proof.
  exists (scan_table offset (take count (drop offset (wasmTable st))) m).
  split; [apply updateTableMap_run; [exact Hmap | exact Hrange]|].
  assert (Hlook : forall j, (j < count)%nat ->
            take count (drop offset (wasmTable st)) !! j
            = wasmTable st !! (offset + j)%nat).
  { intros j Hj. rewrite lookup_take_lt by exact Hj. apply lookup_drop. }
  assert (Hout : forall j, (count <= j)%nat ->
            take count (drop offset (wasmTable st)) !! j = None).
  { intros j Hj. apply lookup_ge_None_2. rewrite length_take. lia. }
  split.
  - intros f Hnot. apply scan_table_absent.
    intros Hin. apply list_elem_of_lookup in Hin as [j Hj].
    destruct (Nat.lt_ge_cases j count) as [Hlt|Hge].
    + rewrite Hlook in Hj by exact Hlt. apply (Hnot (offset + j)%nat); [lia | exact Hj].
    + rewrite Hout in Hj by exact Hge. discriminate Hj.
  - intros f i Hi Hentry Hlast.
    assert (Hi' : i = (offset + (i - offset))%nat) by lia.
    rewrite Hi' at 1. apply scan_table_last.
    + rewrite Hlook by lia. rewrite <- Hi'. exact Hentry.
    + intros j' Hlt. destruct (Nat.lt_ge_cases j' count) as [Hin|Hge].
      * rewrite Hlook by exact Hin. apply Hlast. lia.
      * rewrite Hout by exact Hge. discriminate.
Qed.

Lemma updateTableMap_records_last_witness :
  exists m',
    updateTableMap 0 3
      {| wasmTable := [Some (WasmFunc 1); None; Some (WasmFunc 1)];
         wasmTable_maximum := None;
         freeTableIndexes := [];
         functionsInTableMap := Some ∅;
         instances := 0 |}
    = (Ok tt,
       {| wasmTable := [Some (WasmFunc 1); None; Some (WasmFunc 1)];
          wasmTable_maximum := None;
          freeTableIndexes := [];
          functionsInTableMap := Some m';
          instances := 0 |}) /\
    m' !! WasmFunc 1 = Some 2%nat.
Proof.
  destruct (updateTableMap_records_last 0 3
              {| wasmTable := [Some (WasmFunc 1); None; Some (WasmFunc 1)];
                 wasmTable_maximum := None;
                 freeTableIndexes := [];
                 functionsInTableMap := Some ∅;
                 instances := 0 |} ∅ eq_refl ltac:(simpl; lia))
    as (m' & Hrun & _ & Hlast).
  exists m'. split; [exact Hrun|].
  apply Hlast; [lia | reflexivity |].
  intros j Hj. assert (j = 3%nat \/ (3 < j)%nat) as [-> | Hgt] by lia; lia.
Defined.

Lemma registry_after_first_use st : registry (initialized st) = registry st.
Proof. apply registry_of_map, registry_initialized. Qed.

(** On first use, a function that already sits in the table is found
    by the scan: [addFunction] returns the highest index that holds it
    and neither writes the table nor takes a slot. *)
Theorem addFunction_first_use_finds_entry (cfg : Settings) (host : Host)
    (f : callable) (sig : option string) (st : State) (i : nat)
    (Hfirst : functionsInTableMap st = None)
    (Hentry : wasmTable st !! i = Some (Some f))
    (Hlast : forall j, (i < j)%nat -> wasmTable st !! j <> Some (Some f)) :
  exists st',
    addFunction cfg host f sig st = (Ok i, st') /\
    wasmTable st' = wasmTable st /\
    freeTableIndexes st' = freeTableIndexes st /\
    registry st' !! f = Some i.
Proof.
  assert (Hreg : registry st !! f = Some i).
  { unfold registry. rewrite Hfirst.
    apply (scan_table_last (wasmTable st) 0 ∅ f i Hentry Hlast). }
  exists (initialized st).
  split; [apply addFunction_registered; exact Hreg|].
  destruct (initialized_frame st) as (Ht & _ & Hfree & _).
  rewrite registry_after_first_use. auto.
Qed.

Lemma addFunction_first_use_finds_entry_witness :
  exists st',
    addFunction release_build fallback_host (WasmFunc 0) None open_state
    = (Ok 0%nat, st') /\
    wasmTable st' = wasmTable open_state.
Proof.
  destruct (addFunction_first_use_finds_entry release_build fallback_host
              (WasmFunc 0) None open_state 0 eq_refl eq_refl)
    as (st' & Hcall & Htable & _).
  - intros [|j] Hj; [lia | discriminate].
  - exists st'. auto.
Defined.

(** ** Releasing *)

(** [removeFunction] never writes the table.  It fails only for want
    of a registry (a [TypeError], before any first use) or for an index
    outside the table (a [RangeError]), and then changes nothing; when
    it returns, the index is the new last element of the FreeList. *)
Theorem removeFunction_outcomes (index : nat) (st st' : State) (r : result unit)
    (Hcall : removeFunction index st = (r, st')) :
  wasmTable st' = wasmTable st /\
  match r with
  | Ok _ =>
      (index < length (wasmTable st))%nat /\
      functionsInTableMap st <> None /\
      freeTableIndexes st' = freeTableIndexes st ++ [index]
  | Throw e =>
      st' = st /\
      (functionsInTableMap st = None /\ e = TypeError \/
       functionsInTableMap st <> None /\
       (length (wasmTable st) <= index)%nat /\ e = RangeError)
  end.
Proof.
  destruct (functionsInTableMap st) as [m|] eqn:Hm.
  - destruct (wasmTable st !! index) as [entry|] eqn:Hentry.
    + rewrite (removeFunction_run _ _ _ _ Hm Hentry) in Hcall.
      inversion Hcall; subst. fields. split; [reflexivity|].
      split; [apply lookup_lt_Some in Hentry; exact Hentry|]. auto.
    + revert Hcall. unfold removeFunction.
      erewrite bind_ok by (apply the_map_run; exact Hm).
      unfold bind at 1, getWasmTableEntry, wasmTable_get. rewrite Hentry.
      intros [= <- <-]. split; [reflexivity|]. split; [reflexivity|].
      right. apply lookup_ge_None_1 in Hentry. auto.
  - revert Hcall. unfold removeFunction.
    unfold bind at 1, the_map, bind, gets, throw. cbn beta iota. rewrite Hm.
    intros [= <- <-]. auto.
Qed.

Lemma removeFunction_outcomes_witness :
  removeFunction 0 empty_state = (Throw TypeError, empty_state) /\
  wasmTable empty_state = wasmTable empty_state.
Proof.
  split; [reflexivity|].
  exact (proj1 (removeFunction_outcomes 0 empty_state empty_state
                  (Throw TypeError) eq_refl)).
Defined.

(** Release then acquire is a round trip: the slot just released is
    the one [getEmptyTableSlot] hands out next, the FreeList is back to
    what it was, and the table has neither grown nor changed. *)
Theorem release_then_acquire (index : nat) (st : State)
    (Hmap : functionsInTableMap st <> None)
    (Hrange : (index < length (wasmTable st))%nat) :
  exists st1 st2,
    removeFunction index st = (Ok tt, st1) /\
    getEmptyTableSlot st1 = (Ok index, st2) /\
    freeTableIndexes st2 = freeTableIndexes st /\
    wasmTable st2 = wasmTable st.
Proof.
  destruct (functionsInTableMap st) as [m|] eqn:Hm; [|congruence].
  destruct (lookup_lt_is_Some_2 _ _ Hrange) as [entry Hentry].
  eexists _, _. split; [apply (removeFunction_run _ _ _ _ Hm Hentry)|].
  split; [apply getEmptyTableSlot_pops; reflexivity|].
  fields. auto.
Qed.

Lemma release_then_acquire_witness :
  exists st1 st2,
    removeFunction 0 (initialized open_state) = (Ok tt, st1) /\
    getEmptyTableSlot st1 = (Ok 0%nat, st2) /\
    freeTableIndexes st2 = [] /\
    wasmTable st2 = [Some (WasmFunc 0)].
Proof.
  apply (release_then_acquire 0 (initialized open_state));
    [discriminate | simpl; lia].
Defined.

(** ** What a registration leaves behind *)

(** A handle that [addFunction] returns for an unseen callable is
    valid: it is in range, the table entry there is one the table
    accepts - the callable itself when the table takes it, otherwise
    the trampoline just created for it - and the registry maps the
    callable to the handle. *)
Theorem addFunction_returns_valid_handle (cfg : Settings) (host : Host)
    (f : callable) (sig : option string) (st st' : State) (k : nat)
    (Hunseen : registry st !! f = None)
    (Hcall : addFunction cfg host f sig st = (Ok k, st')) :
  registry st' !! f = Some k /\
  (k < length (wasmTable st'))%nat /\
  exists g,
    wasmTable st' !! k = Some (Some g) /\
    table_accepts g = true /\
    (table_accepts f = true -> g = f) /\
    (table_accepts f = false -> g = Wrapper (instances st)).
Proof.
  apply (addFunction_unseen_inv _ _ _ _ _ _ _ Hunseen) in Hcall
    as (_ & s2 & g & _ & Hlt & Hacc & Hg & Htable & _ & Hmap).
  rewrite (registry_of_map _ _ Hmap), Htable, length_insert.
  split; [apply lookup_insert_eq|]. split; [exact Hlt|].
  exists g. split; [apply list_lookup_insert_eq; exact Hlt|].
  split; [exact Hacc|].
  destruct Hg as [-> | [Hno ->]]; split; auto; congruence.
Qed.

Lemma addFunction_returns_valid_handle_witness :
  exists st',
    addFunction release_build fallback_host (JsFunc 9) (Some "v") open_state
    = (Ok 1%nat, st') /\
    registry st' !! JsFunc 9 = Some 1%nat /\
    wasmTable st' !! 1%nat = Some (Some (Wrapper 0)).
Proof.
  eexists. split; [vm_compute; reflexivity|].
  destruct (addFunction_returns_valid_handle release_build fallback_host
              (JsFunc 9) (Some "v") open_state _ 1
              ltac:(vm_compute; reflexivity) ltac:(vm_compute; reflexivity))
    as (Hreg & _ & g & Hentry & _ & _ & Hg).
  split; [exact Hreg|]. rewrite Hentry, (Hg eq_refl). reflexivity.
Defined.

(** [addFunction], returning or throwing, takes no registration away
    and moves none: every callable the registry held keeps its slot,
    and the only entry that can be new is the one for the callable of
    the call. *)
Theorem addFunction_keeps_registrations (cfg : Settings) (host : Host)
    (f : callable) (sig : option string) (st st' : State) (r : result nat)
    (Hcall : addFunction cfg host f sig st = (r, st')) :
  (forall g j, registry st !! g = Some j -> registry st' !! g = Some j) /\
  (forall g j, registry st' !! g = Some j ->
               registry st !! g = Some j \/ g = f /\ r = Ok j).
Proof.
  destruct (registry st !! f) as [k|] eqn:Hk.
  - rewrite (addFunction_registered _ _ _ _ _ _ Hk) in Hcall.
    inversion Hcall; subst. rewrite registry_after_first_use. auto.
  - apply (addFunction_unseen_inv _ _ _ _ _ _ _ Hk) in Hcall as [_ Hcall].
    destruct r as [k|e].
    + destruct Hcall as (s2 & g & _ & _ & _ & _ & _ & _ & Hmap).
      rewrite (registry_of_map _ _ Hmap). split.
      * intros g' j Hg'. rewrite lookup_insert_ne; [exact Hg' | congruence].
      * intros g' j Hg'. destruct (decide (f = g')) as [<- | Hne].
        -- rewrite lookup_insert_eq in Hg'. injection Hg' as <-. auto.
        -- rewrite lookup_insert_ne in Hg' by exact Hne. auto.
    + destruct Hcall as (s2 & _ & _ & _ & Hmap).
      rewrite (registry_of_map _ _ Hmap). auto.
Qed.

Lemma addFunction_keeps_registrations_witness :
  exists st',
    addFunction release_build fallback_host (WasmFunc 4) None open_state
    = (Ok 1%nat, st') /\
    registry open_state !! WasmFunc 0 = Some 0%nat /\
    registry st' !! WasmFunc 0 = Some 0%nat.
Proof.
  eexists. split; [vm_compute; reflexivity|].
  split; [reflexivity|].
  refine (proj1 (addFunction_keeps_registrations release_build fallback_host
                   (WasmFunc 4) None open_state _ _ _) _ _ _).
  - vm_compute. reflexivity.
  - reflexivity.
Defined.

(** [addFunction] never shrinks the table and never changes its
    maximum; it grows the table by at most one entry, and not at all
    while a released slot is waiting on the FreeList or when the
    callable is registered already. *)
Theorem addFunction_table_length (cfg : Settings) (host : Host)
    (f : callable) (sig : option string) (st st' : State) (r : result nat)
    (Hcall : addFunction cfg host f sig st = (r, st')) :
  (length (wasmTable st) <= length (wasmTable st') <= S (length (wasmTable st)))%nat /\
  wasmTable_maximum st' = wasmTable_maximum st /\
  (freeTableIndexes st <> [] -> length (wasmTable st') = length (wasmTable st)) /\
  (is_Some (registry st !! f) -> wasmTable st' = wasmTable st).
Proof.
  destruct (initialized_frame st) as (Ht & Hmax & Hfree & _).
  destruct (registry st !! f) as [k|] eqn:Hk.
  - rewrite (addFunction_registered _ _ _ _ _ _ Hk) in Hcall.
    inversion Hcall; subst. rewrite Ht, Hmax. repeat split; auto; lia.
  - assert (Hacq : forall k s2, acquired (initialized st) k s2 ->
              (length (wasmTable st) <= length (wasmTable s2)
               <= S (length (wasmTable st)))%nat /\
              (freeTableIndexes st <> [] ->
               length (wasmTable s2) = length (wasmTable st))).
    { intros k s2 (_ & _ & _ & [[_ Hsame]|(Hnil & _ & _ & _ & Hgrow)]).
      - rewrite Hsame, Ht. split; [lia | reflexivity].
      - rewrite Hgrow, Ht, length_app. simpl. split; [lia|].
        intros Hne. exfalso. apply Hne. congruence. }
    apply (addFunction_unseen_inv _ _ _ _ _ _ _ Hk) in Hcall as [Hmax' Hcall].
    assert (Hlen : (length (wasmTable st) <= length (wasmTable st')
                    <= S (length (wasmTable st)))%nat /\
                   (freeTableIndexes st <> [] ->
                    length (wasmTable st') = length (wasmTable st))).
    { destruct r as [k|e].
      - destruct Hcall as (s2 & g & Hs2 & _ & _ & _ & Htable & _).
        rewrite Htable, length_insert. apply (Hacq k). exact Hs2.
      - destruct Hcall as (s2 & [-> | [k Hs2]] & Htable & _); rewrite Htable.
        + rewrite Ht. split; [lia | reflexivity].
        + apply (Hacq k). exact Hs2. }
    destruct Hlen as [Hlen Hkeep].
    repeat split; try lia; auto.
    intros [? [=]].
Qed.

Lemma addFunction_table_length_witness :
  exists st1 st2 st3,
    addFunction release_build fallback_host (WasmFunc 4) None open_state
    = (Ok 1%nat, st1) /\
    removeFunction 1 st1 = (Ok tt, st2) /\
    addFunction release_build fallback_host (WasmFunc 5) None st2
    = (Ok 1%nat, st3) /\
    length (wasmTable st3) = length (wasmTable st2).
Proof.
  eexists _, _, _. split; [vm_compute; reflexivity|].
  split; [vm_compute; reflexivity|].
  split; [vm_compute; reflexivity|].
  refine (proj1 (proj2 (proj2 (addFunction_table_length release_build fallback_host
                    (WasmFunc 5) None _ _ _ _))) _).
  - vm_compute. reflexivity.
  - discriminate.
Defined.

(** ** Requests that fail *)

Lemma convertJsFunctionToWasm_fails cfg host f sig :
  WASM2JS cfg = false ->
  match sig with
  | Some sig => converts cfg host sig
  | None => false
  end = false ->
  exists e, forall st, convertJsFunctionToWasm cfg host f sig st = (Throw e, st).
Proof.
  intros Hwasm Hsig. unfold convertJsFunctionToWasm, converts in *. rewrite Hwasm.
  destruct (WebAssembly_Function host) as [construct|], sig as [sig|];
    try (eexists; intros st; reflexivity); unfold bind, lift.
  - destruct (sigToWasmTypes cfg sig) as [type|e];
      [rewrite Hsig|]; eexists; intros st; reflexivity.
  - destruct (convertJsFunctionToWasm_bytes cfg sig) as [bytes|e];
      [rewrite Hsig|]; eexists; intros st; reflexivity.
Qed.

Lemma place_fails cfg host f sig k s2 :
  WASM2JS cfg = false -> registrable cfg host f sig = false ->
  exists e,
    try_catch (setWasmTableEntry k f)
      (fun err =>
         match err with
         | TypeError =>
             lift (assert cfg (bool_decide (sig <> None))
                     (Some ("Missing signature argument to addFunction: "
                              +:+ show_callable host f))) ;;
             let* wrapped := convertJsFunctionToWasm cfg host f sig in
             setWasmTableEntry k wrapped
         | _ => throw err
         end) s2 = (Throw e, s2).
Proof.
  intros Hwasm Hnot. unfold registrable in Hnot.
  apply orb_false_iff in Hnot as [Hacc Hsig]. rewrite Hwasm in Hsig. cbn in Hsig.
  destruct (setWasmTableEntry_cases k f s2)
    as [(Hacc' & _)|[(_ & Hset)|(Hacc' & _)]]; try congruence.
  rewrite (try_catch_throw _ _ _ _ _ Hset).
  destruct (assert_cases cfg (bool_decide (sig <> None))
              (Some ("Missing signature argument to addFunction: "
                       +:+ show_callable host f)) s2)
    as [[_ Hassert]|(_ & _ & Hassert)].
  - erewrite bind_ok by exact Hassert.
    destruct (convertJsFunctionToWasm_fails cfg host f sig Hwasm Hsig) as [e He].
    exists e. erewrite bind_throw by apply He. reflexivity.
  - eexists. erewrite bind_throw by exact Hassert. reflexivity.
Qed.

(** A failing registration is not undone: when the callable is a JS
    function that cannot be wrapped (no signature, or one the host
    does not convert), [addFunction] throws after it has taken the
    slot.  A slot popped off the FreeList is then neither registered
    nor released again, and a table that had to grow keeps the new
    empty entry. *)
Theorem addFunction_failed_placement_loses_slot (cfg : Settings) (host : Host)
    (f : callable) (sig : option string) (st : State)
    (Hwasm : WASM2JS cfg = false)
    (Hnot : registrable cfg host f sig = false)
    (Hunseen : registry st !! f = None)
    (Hcheck : (2 <= ASSERTIONS cfg)%nat -> Some f ∉ wasmTable st) :
  exists e st',
    addFunction cfg host f sig st = (Throw e, st') /\
    registry st' = registry st /\
    (forall k rest, freeTableIndexes st = rest ++ [k] ->
                    freeTableIndexes st' = rest /\ wasmTable st' = wasmTable st) /\
    (freeTableIndexes st = [] -> growable st = true ->
     freeTableIndexes st' = [] /\ wasmTable st' = wasmTable st ++ [None]).
Proof.
  destruct (initialized_frame st) as (Ht & Hmax & Hfree & Hinst).
  pose proof (registry_initialized st) as Hmap.
  rewrite addFunction_unseen by exact Hunseen.
  erewrite bind_ok by (apply addFunction_check_passes; rewrite Ht; exact Hcheck).
  destruct (getEmptyTableSlot_cases (initialized st))
    as [(k & rest & Hpop & Hslot)|[(Hnil & Hgrow & Hslot)|(Hnil & Hgrow & Hslot)]].
  - erewrite bind_ok by exact Hslot.
    destruct (place_fails cfg host f sig k
                (set_freeTableIndexes rest (initialized st)) Hwasm Hnot) as [e He].
    erewrite bind_throw by exact He.
    eexists _, _. split; [reflexivity|]. unfold registry at 1. fields.
    rewrite Hmap. split; [reflexivity|]. split.
    + intros k' rest' Heq. pose proof (array_pop_push rest' k') as Hpp.
      unfold array_push in Hpp. rewrite Hfree, Heq, Hpp in Hpop.
      injection Hpop as <- <-. auto.
    + intros Heq. rewrite Hfree, Heq in Hpop. discriminate Hpop.
  - erewrite bind_ok by exact Hslot.
    destruct (place_fails cfg host f sig (length (wasmTable (initialized st)))
                (set_wasmTable (wasmTable (initialized st) ++ [None]) (initialized st))
                Hwasm Hnot) as [e He].
    erewrite bind_throw by exact He.
    eexists _, _. split; [reflexivity|]. unfold registry at 1. fields.
    rewrite Hmap. split; [reflexivity|]. split.
    + intros k' rest' Heq. rewrite Hfree, Heq in Hnil.
      destruct rest'; discriminate Hnil.
    + intros _ _. rewrite Ht. auto.
  - erewrite bind_throw by exact Hslot.
    eexists _, _. split; [reflexivity|]. rewrite registry_after_first_use.
    split; [reflexivity|]. split.
    + intros k' rest' Heq. rewrite Hfree, Heq in Hnil.
      destruct rest'; discriminate Hnil.
    + intros _ Hcan. unfold growable in *. rewrite Hmax, Ht in Hgrow. congruence.
Qed.

Lemma addFunction_failed_placement_loses_slot_witness :
  exists e st',
    addFunction release_build fallback_host (JsFunc 2) None empty_state
    = (Throw e, st') /\
    freeTableIndexes st' = [] /\
    wasmTable st' = [None].
Proof.
  destruct (addFunction_failed_placement_loses_slot release_build fallback_host
              (JsFunc 2) None empty_state eq_refl eq_refl eq_refl
              ltac:(simpl; lia))
    as (e & st' & Hcall & _ & _ & Hgrow).
  exists e, st'. split; [exact Hcall|]. apply Hgrow; reflexivity.
Defined.

(** The level-2 check finds a function that sits in the table. *)
Lemma table_check_fails cfg func count : forall start st i,
  (0 < ASSERTIONS cfg)%nat ->
  (start <= i < start + count)%nat ->
  (start + count <= length (wasmTable st))%nat ->
  wasmTable st !! i = Some (Some func) ->
  for_each start count (fun i =>
    let* entry := getWasmTableEntry i in
    lift (assert cfg (negb (bool_decide (entry = Some func)))
            (Some "function in Table but not functionsInTableMap"))) st
  = (Throw (AssertionFailed (Some "function in Table but not functionsInTableMap")), st).
Proof.
  induction count as [|count IH]; intros start st i Hon Hi Hlen Hentry; [lia|].
  rewrite for_each_S.
  destruct (lookup_lt_is_Some_2 (wasmTable st) start ltac:(lia)) as [entry Hstart].
  destruct (assert_cases cfg (negb (bool_decide (entry = Some func)))
              (Some "function in Table but not functionsInTableMap") st)
    as [[[Hc|Hoff] Hassert]|(_ & _ & Hassert)].
  - erewrite bind_ok; cycle 1.
    { erewrite bind_ok by (apply getWasmTableEntry_run; exact Hstart). exact Hassert. }
    apply (IH (S start) st i); auto; try lia.
    assert (i <> start); [|lia]. intros ->.
    rewrite Hentry in Hstart. injection Hstart as <-.
    rewrite bool_decide_eq_true_2 in Hc by reflexivity. discriminate Hc.
  - lia.
  - erewrite bind_throw; [reflexivity|].
    erewrite bind_ok by (apply getWasmTableEntry_run; exact Hstart). exact Hassert.
Qed.

(** In a build with [ASSERTIONS >= 2], [addFunction] refuses a function
    that sits in the table while the registry does not hold it, and
    changes nothing.  Since [removeFunction] leaves the table entry in
    place, this is what registering a released function again runs
    into. *)
Theorem addFunction_level2_rejects_table_entry (cfg : Settings) (host : Host)
    (f : callable) (sig : option string) (st : State) (i : nat)
    (Hlevel : (2 <= ASSERTIONS cfg)%nat)
    (Hunseen : registry st !! f = None)
    (Hentry : wasmTable st !! i = Some (Some f)) :
  addFunction cfg host f sig st
  = (Throw (AssertionFailed (Some "function in Table but not functionsInTableMap")),
     initialized st).
Proof.
  destruct (initialized_frame st) as (Ht & _).
  rewrite addFunction_unseen by exact Hunseen.
  erewrite bind_throw; [reflexivity|].
  apply Nat.leb_le in Hlevel as Hleb. rewrite Hleb.
  unfold bind at 1, gets at 1. cbn beta iota.
  apply (table_check_fails cfg f _ 0 _ i); [lia | | simpl; lia | congruence].
  rewrite Ht. apply lookup_lt_Some in Hentry. lia.
Qed.

Lemma addFunction_level2_rejects_table_entry_witness :
  exists st1 st2,
    addFunction {| ASSERTIONS := 2; MEMORY64 := false; WASM2JS := false |}
      fallback_host (WasmFunc 7) None empty_state = (Ok 0%nat, st1) /\
    removeFunction 0 st1 = (Ok tt, st2) /\
    addFunction {| ASSERTIONS := 2; MEMORY64 := false; WASM2JS := false |}
      fallback_host (WasmFunc 7) None st2
    = (Throw (AssertionFailed (Some "function in Table but not functionsInTableMap")),
       st2).
Proof.
  eexists _, _. split; [vm_compute; reflexivity|].
  split; [vm_compute; reflexivity|].
  refine (eq_trans
            (addFunction_level2_rejects_table_entry
               {| ASSERTIONS := 2; MEMORY64 := false; WASM2JS := false |}
               fallback_host (WasmFunc 7) None _ 0 _ _ _) _).
  - simpl. lia.
  - reflexivity.
  - reflexivity.
  - reflexivity.
Defined.

(** ** Callables the table holds as they are *)

Lemma array_pop_some {A} (a : list A) x rest :
  array_pop a = Some (x, rest) -> a = rest ++ [x].
Proof.
  unfold array_pop. destruct (rev a) as [|y r] eqn:Hr; [discriminate|].
  intros H. inversion H; subst.
  apply (f_equal (@rev A)) in Hr. rewrite rev_involutive in Hr. exact Hr.
Qed.

Lemma registrable_native cfg host f sig :
  table_accepts f = true -> registrable cfg host f sig = true.
Proof. intros H. unfold registrable. now rewrite H. Qed.

(** A returning request for an unseen callable that the table takes:
    the callable itself is written to the slot. *)
Lemma addFunction_native_placed cfg host f sig st k st' :
  table_accepts f = true ->
  registry st !! f = None ->
  addFunction cfg host f sig st = (Ok k, st') ->
  exists s2,
    acquired (initialized st) k s2 /\
    (k < length (wasmTable s2))%nat /\
    wasmTable st' = <[k := Some f]> (wasmTable s2) /\
    freeTableIndexes st' = freeTableIndexes s2 /\
    functionsInTableMap st' = Some (<[f := k]> (registry st)).
Proof.
  intros Hacc Hunseen Hcall.
  apply (addFunction_unseen_inv _ _ _ _ _ _ _ Hunseen) in Hcall
    as (_ & s2 & g & Hs2 & Hlt & _ & Hg & Htable & Hfree & Hmap).
  exists s2. destruct Hg as [-> | [Hno _]]; [auto 10 | congruence].
Qed.

Lemma addFunction_reuses_native cfg host f sig st k rest :
  table_accepts f = true ->
  registry st !! f = None ->
  ((2 <= ASSERTIONS cfg)%nat -> Some f ∉ wasmTable st) ->
  freeTableIndexes st = rest ++ [k] ->
  (k < length (wasmTable st))%nat ->
  exists st',
    addFunction cfg host f sig st = (Ok k, st') /\
    wasmTable st' = <[k := Some f]> (wasmTable st) /\
    freeTableIndexes st' = rest /\
    functionsInTableMap st' = Some (<[f := k]> (registry st)).
Proof.
  intros Hacc Hunseen Hcheck Hfree Hlt.
  destruct (addFunction_reuses cfg host f sig st k rest Hunseen Hcheck
              (registrable_native cfg host f sig Hacc) Hfree Hlt)
    as (g & st' & Hcall & _ & Htable & _ & Hfree' & Hmap & _).
  exists st'. repeat split; auto.
  destruct (addFunction_native_placed _ _ _ _ _ _ _ Hacc Hunseen Hcall)
    as (s2 & _ & Hlt2 & Htable2 & _).
  assert (Hk : wasmTable st' !! k = Some (Some f))
    by (rewrite Htable2; apply list_lookup_insert_eq; exact Hlt2).
  rewrite Htable, list_lookup_insert_eq in Hk by exact Hlt.
  injection Hk as ->. exact Htable.
Qed.

Lemma elem_of_list_insert {A} (l : list A) i x y :
  y ∈ <[i := x]> l -> y = x \/ y ∈ l.
Proof.
  intros Hin. apply list_elem_of_lookup in Hin as [j Hj].
  destruct (decide (i = j)) as [-> | Hne].
  - destruct (Nat.lt_ge_cases j (length l)) as [Hlt|Hge].
    + rewrite list_lookup_insert_eq in Hj by exact Hlt. left. congruence.
    + rewrite list_insert_ge in Hj by exact Hge.
      right. apply list_elem_of_lookup. eauto.
  - rewrite list_lookup_insert_ne in Hj by exact Hne.
    right. apply list_elem_of_lookup. eauto.
Qed.

(** A slot released twice is handed out twice: nothing in
    [removeFunction] notices the second release, so the next two
    registrations of unseen functions both return the slot, the second
    overwrites the table entry of the first, and the handle of the
    first function now calls the second. *)
Theorem double_release_shares_slot (cfg : Settings) (host : Host)
    (f1 f2 : callable) (sig1 sig2 : option string) (st : State)
    (m : gmap callable nat) (k : nat)
    (Hmap : functionsInTableMap st = Some m)
    (Hrange : (k < length (wasmTable st))%nat)
    (Hnative : table_accepts f1 = true /\ table_accepts f2 = true)
    (Hdistinct : f1 <> f2)
    (Hunseen : m !! f1 = None /\ m !! f2 = None)
    (Hcheck : (2 <= ASSERTIONS cfg)%nat ->
              (Some f1 ∉ wasmTable st) /\ (Some f2 ∉ wasmTable st)) :
  exists st1 st2 st3 st4,
    removeFunction k st = (Ok tt, st1) /\
    removeFunction k st1 = (Ok tt, st2) /\
    addFunction cfg host f1 sig1 st2 = (Ok k, st3) /\
    addFunction cfg host f2 sig2 st3 = (Ok k, st4) /\
    registry st4 !! f1 = Some k /\
    registry st4 !! f2 = Some k /\
    wasmTable st4 !! k = Some (Some f2).
Proof.
  destruct Hnative as [Hn1 Hn2]. destruct Hunseen as [Hu1 Hu2].
  destruct (lookup_lt_is_Some_2 _ _ Hrange) as [entry Hentry].
  pose proof (removeFunction_run k st m entry Hmap Hentry) as Hrel1.
  set (m1 := match entry with Some g => delete g m | None => m end) in *.
  set (st1 := {| wasmTable := wasmTable st;
                 wasmTable_maximum := wasmTable_maximum st;
                 freeTableIndexes := array_push (freeTableIndexes st) k;
                 functionsInTableMap := Some m1;
                 instances := instances st |}) in *.
  pose proof (removeFunction_run k st1 m1 entry eq_refl Hentry) as Hrel2.
  set (m2 := match entry with Some g => delete g m1 | None => m1 end) in *.
  set (st2 := {| wasmTable := wasmTable st1;
                 wasmTable_maximum := wasmTable_maximum st1;
                 freeTableIndexes := array_push (freeTableIndexes st1) k;
                 functionsInTableMap := Some m2;
                 instances := instances st1 |}) in *.
  assert (Hm2 : forall f, m !! f = None -> m2 !! f = None).
  { intros f Hf. unfold m2, m1. destruct entry as [g|]; [|exact Hf].
    apply lookup_delete_None. right. apply lookup_delete_None. right. exact Hf. }
  destruct (addFunction_reuses_native cfg host f1 sig1 st2 k
              (array_push (freeTableIndexes st) k) Hn1)
    as (st3 & Hcall3 & Ht3 & Hfree3 & Hmap3).
  { apply Hm2. exact Hu1. }
  { intros Hlevel. apply (Hcheck Hlevel). }
  { reflexivity. }
  { exact Hrange. }
  change (registry st2) with m2 in Hmap3. change (wasmTable st2) with (wasmTable st) in Ht3.
  destruct (addFunction_reuses_native cfg host f2 sig2 st3 k (freeTableIndexes st) Hn2)
    as (st4 & Hcall4 & Ht4 & Hfree4 & Hmap4).
  { rewrite (registry_of_map _ _ Hmap3), lookup_insert_ne by exact Hdistinct.
    apply Hm2. exact Hu2. }
  { intros Hlevel Hin. rewrite Ht3 in Hin.
    apply elem_of_list_insert in Hin as [[= ->] | Hin]; [congruence|].
    apply (Hcheck Hlevel). exact Hin. }
  { exact Hfree3. }
  { rewrite Ht3, length_insert. exact Hrange. }
  exists st1, st2, st3, st4.
  rewrite (registry_of_map _ _ Hmap4), (registry_of_map _ _ Hmap3), Ht4.
  repeat split; auto.
  - rewrite lookup_insert_ne by congruence. apply lookup_insert_eq.
  - apply lookup_insert_eq.
  - apply list_lookup_insert_eq. rewrite Ht3, length_insert. exact Hrange.
Qed.

Lemma double_release_shares_slot_witness :
  exists st1 st2 st3 st4,
    removeFunction 0 (initialized open_state) = (Ok tt, st1) /\
    removeFunction 0 st1 = (Ok tt, st2) /\
    addFunction release_build fallback_host (WasmFunc 1) None st2 = (Ok 0%nat, st3) /\
    addFunction release_build fallback_host (WasmFunc 2) None st3 = (Ok 0%nat, st4) /\
    registry st4 !! WasmFunc 1 = Some 0%nat /\
    registry st4 !! WasmFunc 2 = Some 0%nat /\
    wasmTable st4 !! 0%nat = Some (Some (WasmFunc 2)).
Proof.
  apply (double_release_shares_slot release_build fallback_host
           (WasmFunc 1) (WasmFunc 2) None None (initialized open_state)
           {[ WasmFunc 0 := 0%nat ]} 0);
    try reflexivity.
  - simpl. lia.
  - split; reflexivity.
  - discriminate.
  - split; reflexivity.
  - simpl. lia.
Defined.

(** ** The invariant of the registry, the table and the FreeList *)

Lemma consistent_first_use st : consistent st -> consistent (initialized st).
Proof.
  intros [Hreg Hnd Hrng Hunr].
  destruct (initialized_frame st) as (Ht & _ & Hfree & _).
  constructor; rewrite ?registry_after_first_use, ?Ht, ?Hfree; assumption.
Qed.

(** A state is consistent when its table and FreeList are those of a
    consistent state up to a grown empty entry and a shorter FreeList,
    with the same registry. *)
Lemma consistent_after_throw st st' :
  consistent st ->
  registry st' = registry st ->
  (wasmTable st' = wasmTable st \/ wasmTable st' = wasmTable st ++ [None]) ->
  (forall k, k ∈ freeTableIndexes st' -> k ∈ freeTableIndexes st) ->
  NoDup (freeTableIndexes st') ->
  consistent st'.
Proof.
  intros [Hreg Hnd Hrng Hunr] Hsame Htable Hsub Hnd'.
  assert (Hlook : forall k e, wasmTable st !! k = Some e -> wasmTable st' !! k = Some e).
  { intros k e Hk. destruct Htable as [-> | ->]; [exact Hk|].
    rewrite lookup_app_l; [exact Hk|]. apply lookup_lt_Some in Hk. exact Hk. }
  assert (Hlen : (length (wasmTable st) <= length (wasmTable st'))%nat).
  { destruct Htable as [-> | ->]; [lia|]. rewrite length_app. lia. }
  constructor; rewrite ?Hsame.
  - intros f k Hf. apply Hlook, Hreg, Hf.
  - exact Hnd'.
  - intros k Hk. apply Hsub, Hrng in Hk. lia.
  - intros k f Hk. apply Hunr, Hsub, Hk.
Qed.

Lemma addFunction_preserves_consistent cfg host f sig st r st' :
  table_accepts f = true ->
  consistent st ->
  addFunction cfg host f sig st = (r, st') ->
  consistent st'.
Proof.
  intros Hacc Hst Hcall.
  destruct (initialized_frame st) as (Ht & _ & Hfree & _).
  destruct (registry st !! f) as [k|] eqn:Hk.
  { rewrite (addFunction_registered _ _ _ _ _ _ Hk) in Hcall.
    inversion Hcall; subst. apply consistent_first_use, Hst. }
  destruct r as [k|e].
  - (* the callable was placed *)
    destruct (addFunction_native_placed _ _ _ _ _ _ _ Hacc Hk Hcall)
      as (s2 & (_ & _ & _ & Hslot) & Hlt & Htable & Hfree' & Hmap).
    destruct Hst as [Hreg Hnd Hrng Hunr].
    rewrite Ht, Hfree in Hslot.
    assert (Hfresh : forall g, registry st !! g <> Some k).
    { intros g Hg. destruct Hslot as [[Hpop _]|(_ & _ & _ & -> & _)].
      - apply array_pop_some in Hpop. apply (Hunr k g); [|exact Hg].
        rewrite Hpop. apply elem_of_app. right. left.
      - apply Hreg, lookup_lt_Some in Hg. lia. }
    assert (Hold : forall j e, j <> k -> wasmTable st !! j = Some e ->
                               wasmTable s2 !! j = Some e).
    { intros j e Hj He. destruct Hslot as [[_ ->]|(_ & _ & _ & _ & ->)];
        [exact He|].
      rewrite lookup_app_l; [exact He|]. apply lookup_lt_Some in He. exact He. }
    assert (Hfree2 : NoDup (freeTableIndexes s2) /\
                     (k ∉ freeTableIndexes s2) /\
                     forall j, j ∈ freeTableIndexes s2 -> j ∈ freeTableIndexes st).
    { destruct Hslot as [[Hpop _]|(_ & -> & _)].
      - apply array_pop_some in Hpop. rewrite Hpop in Hnd |- *.
        apply list.NoDup_app in Hnd as (Hnd & Hdisj & _).
        repeat split; [exact Hnd | |].
        + intros Hin. apply (Hdisj k Hin). left.
        + intros j Hj. apply elem_of_app. left. exact Hj.
      - repeat split; [constructor | apply not_elem_of_nil |].
        intros j Hj. apply elem_of_nil in Hj. contradiction. }
    destruct Hfree2 as (Hnd2 & Hk2 & Hsub).
    assert (Hlen : (length (wasmTable st) <= length (wasmTable s2))%nat).
    { destruct Hslot as [[_ ->]|(_ & _ & _ & _ & ->)]; [lia|].
      rewrite length_app. lia. }
    constructor; rewrite ?(registry_of_map _ _ Hmap), ?Htable, ?Hfree'.
    + intros g j Hg. destruct (decide (f = g)) as [<- | Hne].
      * rewrite lookup_insert_eq in Hg. injection Hg as <-.
        apply list_lookup_insert_eq. exact Hlt.
      * rewrite lookup_insert_ne in Hg by exact Hne.
        assert (j <> k) by (intros ->; exact (Hfresh g Hg)).
        rewrite list_lookup_insert_ne by auto. apply Hold; auto.
    + exact Hnd2.
    + intros j Hj. rewrite length_insert. apply Hsub, Hrng in Hj. lia.
    + intros j g Hj Hg. destruct (decide (f = g)) as [<- | Hne].
      * rewrite lookup_insert_eq in Hg. injection Hg as <-. contradiction.
      * rewrite lookup_insert_ne in Hg by exact Hne.
        apply (Hunr j g); [apply Hsub, Hj | exact Hg].
  - (* the request failed *)
    apply (addFunction_unseen_inv _ _ _ _ _ _ _ Hk) in Hcall
      as (_ & s2 & Hs2 & Htable & Hfree' & Hmap).
    apply (consistent_after_throw st); [exact Hst | apply registry_of_map, Hmap | ..];
      rewrite ?Htable, ?Hfree'.
    + destruct Hs2 as [-> | [k (_ & _ & _ & [[_ ->]|(_ & _ & _ & _ & ->)])]];
        rewrite Ht; auto.
    + destruct Hs2 as [-> | [k (_ & _ & _ & [[Hpop _]|(_ & -> & _)])]].
      * rewrite Hfree. auto.
      * apply array_pop_some in Hpop. rewrite Hfree in Hpop. rewrite Hpop.
        intros j Hj. apply elem_of_app. left. exact Hj.
      * intros j Hj. apply elem_of_nil in Hj. contradiction.
    + destruct Hst as [_ Hnd _ _].
      destruct Hs2 as [-> | [k (_ & _ & _ & [[Hpop _]|(_ & -> & _)])]].
      * rewrite Hfree. exact Hnd.
      * apply array_pop_some in Hpop. rewrite Hfree in Hpop. rewrite Hpop in Hnd.
        apply list.NoDup_app in Hnd as (Hnd & _). exact Hnd.
      * constructor.
Qed.

Lemma removeFunction_throws_unchanged index st :
  functionsInTableMap st = None \/ wasmTable st !! index = None ->
  exists e, removeFunction index st = (Throw e, st).
Proof.
  unfold removeFunction.
  destruct (functionsInTableMap st) as [m|] eqn:Hm.
  - intros [[=] | Hentry].
    erewrite bind_ok by (apply the_map_run; exact Hm).
    unfold bind at 1, getWasmTableEntry, wasmTable_get. rewrite Hentry.
    eexists. reflexivity.
  - intros _. unfold bind at 1, the_map, bind, gets, throw. cbn beta iota.
    rewrite Hm. eexists. reflexivity.
Qed.

Lemma removeFunction_preserves_consistent index st r st' :
  (exists f, registry st !! f = Some index) ->
  consistent st ->
  removeFunction index st = (r, st') ->
  consistent st'.
Proof.
  intros [f Hf] Hst Hcall.
  destruct (functionsInTableMap st) as [m|] eqn:Hm.
  2: { destruct (removeFunction_throws_unchanged index st (or_introl Hm)) as [e He].
       rewrite He in Hcall. inversion Hcall; subst. exact Hst. }
  destruct Hst as [Hreg Hnd Hrng Hunr].
  pose proof (Hreg f index Hf) as Hentry.
  rewrite (removeFunction_run _ _ _ _ Hm Hentry) in Hcall.
  inversion Hcall; subst. clear Hcall.
  rewrite (registry_of_map _ _ Hm) in *.
  assert (Hnew : index ∉ freeTableIndexes st)
    by (intros Hin; exact (Hunr index f Hin Hf)).
  constructor; unfold registry; fields.
  - intros g j Hg. apply lookup_delete_Some in Hg as [_ Hg]. apply Hreg, Hg.
  - unfold array_push. apply list.NoDup_app. repeat split; [exact Hnd | | apply list.NoDup_singleton].
    intros j Hj Hj'. apply list_elem_of_singleton in Hj'. subst j. contradiction.
  - unfold array_push. intros j Hj. apply elem_of_app in Hj as [Hj | Hj].
    + apply Hrng, Hj.
    + apply list_elem_of_singleton in Hj. subst j. apply lookup_lt_Some in Hentry. exact Hentry.
  - unfold array_push. intros j g Hj Hg. apply lookup_delete_Some in Hg as [Hne Hg].
    apply elem_of_app in Hj as [Hj | Hj].
    + exact (Hunr j g Hj Hg).
    + apply list_elem_of_singleton in Hj. subst j.
      apply Hreg in Hg. rewrite Hentry in Hg. congruence.
Qed.

(** Under requests that stay in contract - registrations of callables
    the table holds as they are, releases of slots that are registered
    at the time - the registry, the table and the FreeList stay
    consistent whatever the requests return or throw: every registered
    callable is the table entry at its slot, so no two registered
    callables share a slot, and no registered slot is on the
    FreeList. *)
Theorem served_requests_keep_consistency (cfg : Settings) (host : Host)
    (rqs : list request) (st : State)
    (Hst : consistent st)
    (Hrqs : all_in_contract cfg host rqs st) :
  consistent (serve_all cfg host rqs st) /\
  (forall f k, registry (serve_all cfg host rqs st) !! f = Some k ->
               wasmTable (serve_all cfg host rqs st) !! k = Some (Some f) /\
               k ∉ freeTableIndexes (serve_all cfg host rqs st)) /\
  (forall f g k, registry (serve_all cfg host rqs st) !! f = Some k ->
                 registry (serve_all cfg host rqs st) !! g = Some k ->
                 f = g).
Proof.
  assert (Hfinal : consistent (serve_all cfg host rqs st)).
  { revert st Hst Hrqs. induction rqs as [|rq rqs IH]; intros st Hst Hrqs; [exact Hst|].
    destruct Hrqs as [Hrq Hrest]. cbn [serve_all]. apply IH; [|exact Hrest].
    destruct rq as [f sig|index]; cbn [serve in_contract] in *.
    - destruct (addFunction cfg host f sig st) as [r st'] eqn:Hcall.
      exact (addFunction_preserves_consistent _ _ _ _ _ _ _ Hrq Hst Hcall).
    - destruct (removeFunction index st) as [r st'] eqn:Hcall.
      exact (removeFunction_preserves_consistent _ _ _ _ Hrq Hst Hcall). }
  split; [exact Hfinal|].
  destruct Hfinal as [Hreg _ _ Hunr]. split.
  - intros f k Hf. split; [apply Hreg, Hf|].
    intros Hin. exact (Hunr k f Hin Hf).
  - intros f g k Hf Hg. apply Hreg in Hf, Hg. congruence.
Qed.

Lemma consistent_empty_state : consistent empty_state.
Proof.
  constructor; cbn.
  - intros f k Hf. discriminate Hf.
  - constructor.
  - intros k Hk. apply elem_of_nil in Hk. contradiction.
  - intros k f Hk. apply elem_of_nil in Hk. contradiction.
Qed.

Lemma served_requests_keep_consistency_witness :
  registry
    (serve_all release_build fallback_host
       [Register (WasmFunc 1) None; Register (WasmFunc 2) None;
        Unregister 0; Register (WasmFunc 3) None] empty_state)
    !! WasmFunc 3 = Some 0%nat /\
  wasmTable
    (serve_all release_build fallback_host
       [Register (WasmFunc 1) None; Register (WasmFunc 2) None;
        Unregister 0; Register (WasmFunc 3) None] empty_state)
    !! 0%nat = Some (Some (WasmFunc 3)).
Proof.
  split; [reflexivity|].
  refine (proj1 (proj1 (proj2 (served_requests_keep_consistency
                   release_build fallback_host
                   [Register (WasmFunc 1) None; Register (WasmFunc 2) None;
                    Unregister 0; Register (WasmFunc 3) None] empty_state
                   consistent_empty_state _)) (WasmFunc 3) 0%nat eq_refl)).
  cbn [all_in_contract in_contract].
  repeat split; try reflexivity.
  exists (WasmFunc 1). reflexivity.
Defined.

Lemma addFunction_check_result cfg f st :
  (if (2 <=? ASSERTIONS cfg)%nat then
     let* table := gets wasmTable in
     for_each 0 (length table) (fun i =>
       let* entry := getWasmTableEntry i in
       lift (assert cfg (negb (bool_decide (entry = Some f)))
               (Some "function in Table but not functionsInTableMap")))
   else ret tt) st = (Ok tt, st) \/
  (2 <= ASSERTIONS cfg)%nat /\ Some f ∈ wasmTable st /\
  (if (2 <=? ASSERTIONS cfg)%nat then
     let* table := gets wasmTable in
     for_each 0 (length table) (fun i =>
       let* entry := getWasmTableEntry i in
       lift (assert cfg (negb (bool_decide (entry = Some f)))
               (Some "function in Table but not functionsInTableMap")))
   else ret tt) st
  = (Throw (AssertionFailed (Some "function in Table but not functionsInTableMap")), st).
Proof.
  destruct (decide (Some f ∈ wasmTable st)) as [Hin|Hnot].
  - destruct (Nat.leb_spec 2 (ASSERTIONS cfg)) as [Hlevel|Hlow]; [right | left; reflexivity].
    split; [exact Hlevel|]. split; [exact Hin|].
    apply list_elem_of_lookup in Hin as [i Hi].
    unfold bind at 1, gets at 1. cbn beta iota.
    apply (table_check_fails cfg f _ 0 _ i); [lia | | simpl; lia | exact Hi].
    apply lookup_lt_Some in Hi. lia.
  - left. apply addFunction_check_passes. intros _. exact Hnot.
Qed.

(** For a callable the table holds as it is, a failing [addFunction]
    is atomic (given released slots that are in range): it fails only
    because the table is exhausted, or on the level-2 assertion because
    the function sits in the table unregistered, and in both cases no
    slot is taken and nothing but the first-use creation of the
    registry has happened. *)
Theorem addFunction_native_fails_cleanly (cfg : Settings) (host : Host)
    (f : callable) (sig : option string) (st st' : State) (e : exn)
    (Hnative : table_accepts f = true)
    (Hrange : forall k, k ∈ freeTableIndexes st -> (k < length (wasmTable st))%nat)
    (Hcall : addFunction cfg host f sig st = (Throw e, st')) :
  st' = initialized st /\
  (e = ThrownString "Unable to grow wasm table. Set ALLOW_TABLE_GROWTH." /\
   freeTableIndexes st = [] /\ growable st = false \/
   e = AssertionFailed (Some "function in Table but not functionsInTableMap") /\
   (2 <= ASSERTIONS cfg)%nat /\ Some f ∈ wasmTable st).
Proof.
  destruct (initialized_frame st) as (Ht & Hmax & Hfree & _).
  pose proof (registry_initialized st) as Hmap.
  destruct (registry st !! f) as [k|] eqn:Hk.
  { rewrite (addFunction_registered _ _ _ _ _ _ Hk) in Hcall. discriminate Hcall. }
  rewrite addFunction_unseen in Hcall by exact Hk.
  destruct (addFunction_check_result cfg f (initialized st))
    as [Hcheck|(Hlevel & Hin & Hcheck)].
  2: { erewrite bind_throw in Hcall by exact Hcheck.
       inversion Hcall; subst. rewrite Ht in Hin. auto 10. }
  erewrite bind_ok in Hcall by exact Hcheck.
  assert (Hplaced : forall k s2,
            (k < length (wasmTable s2))%nat ->
            functionsInTableMap s2 = Some (registry st) ->
            exists s4,
              (try_catch (setWasmTableEntry k f)
                 (fun err =>
                    match err with
                    | TypeError =>
                        lift (assert cfg (bool_decide (sig <> None))
                                (Some ("Missing signature argument to addFunction: "
                                         +:+ show_callable host f))) ;;
                        let* wrapped := convertJsFunctionToWasm cfg host f sig in
                        setWasmTableEntry k wrapped
                    | _ => throw err
                    end) ;;
               map_set f k ;; ret k) s2 = (Ok k, s4)).
  { intros k s2 Hlt Hm2.
    destruct (setWasmTableEntry_cases k f s2)
      as [(_ & _ & Hset)|[(Hno & _)|(_ & Hge & _)]]; [|congruence|lia].
    erewrite bind_ok by (apply try_catch_ok; exact Hset).
    erewrite bind_ok by (apply map_set_run; exact Hm2).
    eexists. reflexivity. }
  destruct (getEmptyTableSlot_cases (initialized st))
    as [(k & rest & Hpop & Hslot)|[(Hnil & Hgrow & Hslot)|(Hnil & Hgrow & Hslot)]].
  - erewrite bind_ok in Hcall by exact Hslot.
    destruct (Hplaced k (set_freeTableIndexes rest (initialized st))) as [s4 Hs4].
    + fields. rewrite Ht. apply Hrange. rewrite <- Hfree.
      apply array_pop_some in Hpop. rewrite Hpop. apply elem_of_app. right. left.
    + exact Hmap.
    + rewrite Hs4 in Hcall. discriminate Hcall.
  - erewrite bind_ok in Hcall by exact Hslot.
    destruct (Hplaced (length (wasmTable (initialized st)))
                (set_wasmTable (wasmTable (initialized st) ++ [None]) (initialized st)))
      as [s4 Hs4].
    + fields. rewrite length_app. simpl. lia.
    + exact Hmap.
    + rewrite Hs4 in Hcall. discriminate Hcall.
  - erewrite bind_throw in Hcall by exact Hslot.
    inversion Hcall; subst. split; [reflexivity|]. left.
    split; [reflexivity|]. split; [congruence|].
    unfold growable in *. now rewrite Hmax, Ht in Hgrow.
Qed.

Lemma addFunction_native_fails_cleanly_witness :
  exists e st',
    addFunction release_build fallback_host (WasmFunc 1) None full_state
    = (Throw e, st') /\
    st' = initialized full_state /\
    e = ThrownString "Unable to grow wasm table. Set ALLOW_TABLE_GROWTH.".
Proof.
  eexists _, _. split; [vm_compute; reflexivity|].
  destruct (addFunction_native_fails_cleanly release_build fallback_host
              (WasmFunc 1) None full_state _ _ eq_refl
              ltac:(intros k Hk; apply elem_of_nil in Hk; contradiction)
              ltac:(vm_compute; reflexivity))
    as (Hst' & _).
  split; [exact Hst' | reflexivity].
Defined.

(** ** Builds without assertions *)

(** In a build without [ASSERTIONS] the translation returns for every
    string: nothing is checked, a character outside the tags becomes
    an [undefined] entry at its place, and the empty string gives the
    result list [[undefined]]. *)
Theorem sigToWasmTypes_release_build (cfg : Settings) (sig : string)
    (Hoff : ASSERTIONS cfg = O) :
  sigToWasmTypes cfg sig
  = Ok {| parameters := map (typeNames cfg) (list_ascii_of_string (sigParam_of sig));
          results := if is_char "v" (String.get 0 sig) then []
                     else [lookup_key (typeNames cfg) (String.get 0 sig)] |}.
Proof.
  destruct (sigToWasmTypes_unchecked cfg sig Hoff) as [type Hcall].
  rewrite Hcall. f_equal. apply sigToWasmTypes_result. exact Hcall.
Qed.

Lemma sigToWasmTypes_release_build_witness :
  ASSERTIONS release_build = O /\
  sigToWasmTypes release_build "v?v"
  = Ok {| parameters := [None; None]; results := [] |}.
Proof.
  split; [reflexivity|].
  exact (sigToWasmTypes_release_build release_build "v?v" eq_refl).
Defined.

(** ** Requests that succeed *)

(** A registration succeeds whenever it can: for an unseen callable
    that can be placed (the table takes it, or the host wraps it for
    its signature), with released slots in range and either a released
    slot or room to grow, [addFunction] returns - the last released
    slot if there is one, else the old length of the table - and the
    registry maps the callable to what was returned. *)
Theorem addFunction_succeeds (cfg : Settings) (host : Host)
    (f : callable) (sig : option string) (st : State)
    (Hunseen : registry st !! f = None)
    (Hcheck : (2 <= ASSERTIONS cfg)%nat -> Some f ∉ wasmTable st)
    (Hplace : registrable cfg host f sig = true)
    (Hrange : forall k, k ∈ freeTableIndexes st -> (k < length (wasmTable st))%nat)
    (Hroom : freeTableIndexes st <> [] \/ growable st = true) :
  exists k st',
    addFunction cfg host f sig st = (Ok k, st') /\
    registry st' !! f = Some k /\
    match array_pop (freeTableIndexes st) with
    | Some (last, rest) =>
        k = last /\ freeTableIndexes st' = rest /\
        length (wasmTable st') = length (wasmTable st)
    | None =>
        k = length (wasmTable st) /\ freeTableIndexes st' = [] /\
        length (wasmTable st') = S (length (wasmTable st))
    end.
Proof.
  destruct (array_pop (freeTableIndexes st)) as [[last rest]|] eqn:Hpop.
  - apply array_pop_some in Hpop.
    destruct (addFunction_reuses cfg host f sig st last rest Hunseen Hcheck Hplace Hpop)
      as (g & st' & Hcall & _ & Htable & _ & Hfree & Hmap & _).
    { apply Hrange. rewrite Hpop. apply elem_of_app. right. left. }
    exists last, st'. split; [exact Hcall|].
    rewrite (registry_of_map _ _ Hmap), Htable, length_insert.
    split; [apply lookup_insert_eq | auto].
  - apply array_pop_nil in Hpop.
    destruct Hroom as [Hne | Hgrow]; [contradiction|].
    destruct (addFunction_grows cfg host f sig st Hunseen Hcheck Hplace Hpop Hgrow)
      as (g & st' & Hcall & _ & Htable & _ & Hfree & Hmap & _).
    exists (length (wasmTable st)), st'. split; [exact Hcall|].
    rewrite (registry_of_map _ _ Hmap), Htable, length_app.
    split; [apply lookup_insert_eq|]. repeat split; auto. simpl. lia.
Qed.

Lemma addFunction_succeeds_witness :
  exists k st',
    addFunction release_build fallback_host (JsFunc 8) (Some "dd") open_state
    = (Ok k, st') /\
    registry st' !! JsFunc 8 = Some k /\
    k = 1%nat.
Proof.
  destruct (addFunction_succeeds release_build fallback_host (JsFunc 8) (Some "dd")
              open_state eq_refl ltac:(simpl; lia) eq_refl
              ltac:(intros k Hk; apply elem_of_nil in Hk; contradiction)
              (or_intror eq_refl))
    as (k & st' & Hcall & Hreg & Hk & _).
  exists k, st'. auto.
Defined.
